(** * UK fuel price map: the data pipeline of [src/App.tsx]

    The application reads a CSV export of fuel stations, turns each row into a
    [FuelPoint], picks a display price per station and derives a colour scale
    from the 10th and 90th percentile of the display prices.

    The development has five parts:
    - [JS]: the parts of the JavaScript runtime the code relies on (binary64
      numbers with round-to-nearest-even, [parseFloat], [toFixed], number to
      string conversion, a few string methods);
    - the embedding of the functions of [App.tsx], under their own names;
    - the theory of the number model (rounding is monotone and the identity on
      representable values);
    - the properties of the pipeline;
    - the rest of the component: the statistics, the state a file leaves
      behind, the colours and the icons of the markers. *)

From Stdlib Require Import ZArith Lia Bool List Ascii String DecimalString.
From Stdlib Require Import Sorting.Sorted Sorting.Permutation.
From Stdlib Require Floats.SpecFloat.
From stdpp Require Import base option gmap strings.

Local Open Scope Z_scope.

(* ===================================================================== *)
(** * Part I: the JavaScript runtime *)
(* ===================================================================== *)

Module JS.

(** ** Numbers

    A JavaScript number is an IEEE 754 binary64 value.  Every finite binary64
    value is an integer multiple of [2^-1074] of magnitude below [2^1024], so
    a finite number is kept as a sign and the integer [m] with value
    [m * 2^-1074]: comparison is comparison of integers, sums and differences
    are exact on integers, and every operation is "the exact result, then
    rounded", as IEEE 754 defines it. *)

Inductive number : Type :=
  | NaN
  | Inf (neg : bool)
  | Fin (neg : bool) (m : Z).

(** The scaled integer of 1.0, and the first magnitude that overflows. *)
Definition one : Z := 2 ^ 1074.
Definition overflow : Z := 2 ^ 2098.

(** Round-half-even of the rational [a / b] to an integer ([0 <= a], [0 < b]). *)
Definition rne (a b : Z) : Z :=
  let q := a / b in
  match 2 * (a mod b) ?= b with
  | Lt => q
  | Gt => q + 1
  | Eq => if Z.even q then q else q + 1
  end.

(** The binade of [a / b]: below [2^53] (subnormal numbers and the first
    normal binade) the spacing of binary64 values is one unit, and it doubles
    with every further bit. *)
Definition binade (a b : Z) : Z := Z.max 0 (Z.log2 (a / b) - 52).

(** Round-to-nearest-even of [a / b] units to a binary64 magnitude, with an
    unbounded exponent. *)
Definition rnd (a b : Z) : Z :=
  let k := binade a b in 2 ^ k * rne a (b * 2 ^ k).

(** A rounded magnitude at or above [2^1024] is an infinity. *)
Definition pack (neg : bool) (m : Z) : number :=
  if m <? overflow then Fin neg m else Inf neg.

Definition round (neg : bool) (a b : Z) : number := pack neg (rnd a b).

(** The signed scaled integer of a finite number. *)
Definition sval (neg : bool) (m : Z) : Z := if neg then - m else m.

(** The number nearest to the integer [z]. *)
Definition of_Z (z : Z) : number := round (z <? 0) (Z.abs z * one) 1.

(** The number nearest to [d * 10^e]: what a decimal literal denotes. *)
Definition of_decimal (neg : bool) (d e : Z) : number :=
  if d =? 0 then Fin neg 0
  else if 0 <=? e then round neg (d * 10 ^ e * one) 1
  else round neg (d * one) (10 ^ (- e)).

Definition isFinite (x : number) : bool :=
  match x with Fin _ _ => true | _ => false end.

Definition neg (x : number) : number :=
  match x with
  | NaN => NaN
  | Inf s => Inf (negb s)
  | Fin s m => Fin (negb s) m
  end.

(** [x + y].  An exact zero sum is [-0] only when both operands are [-0]. *)
Definition add (x y : number) : number :=
  match x, y with
  | NaN, _ | _, NaN => NaN
  | Inf s1, Inf s2 => if eqb s1 s2 then Inf s1 else NaN
  | Inf s, Fin _ _ | Fin _ _, Inf s => Inf s
  | Fin s1 m1, Fin s2 m2 =>
      let z := sval s1 m1 + sval s2 m2 in
      if z =? 0 then Fin (s1 && s2) 0 else round (z <? 0) (Z.abs z) 1
  end.

(** [x - y] *)
Definition sub (x y : number) : number := add x (neg y).

(** [x * y] *)
Definition mul (x y : number) : number :=
  match x, y with
  | NaN, _ | _, NaN => NaN
  | Inf s1, Inf s2 => Inf (xorb s1 s2)
  | Inf s1, Fin s2 m | Fin s1 m, Inf s2 =>
      if m =? 0 then NaN else Inf (xorb s1 s2)
  | Fin s1 m1, Fin s2 m2 => round (xorb s1 s2) (m1 * m2) one
  end.

(** [x / y] *)
Definition div (x y : number) : number :=
  match x, y with
  | NaN, _ | _, NaN => NaN
  | Inf _, Inf _ => NaN
  | Inf s1, Fin s2 _ => Inf (xorb s1 s2)
  | Fin s1 _, Inf s2 => Fin (xorb s1 s2) 0
  | Fin s1 m1, Fin s2 m2 =>
      if m2 =? 0 then (if m1 =? 0 then NaN else Inf (xorb s1 s2))
      else round (xorb s1 s2) (m1 * one) m2
  end.

(** The order of the extended reals on numbers that are not [NaN]; the two
    zeros are equal. *)
Definition leb (x y : number) : bool :=
  match x, y with
  | NaN, _ | _, NaN => false
  | Inf s1, Inf s2 => implb s2 s1
  | Inf s, Fin _ _ => s
  | Fin _ _, Inf s => negb s
  | Fin s1 m1, Fin s2 m2 => sval s1 m1 <=? sval s2 m2
  end.

(** [x < y] *)
Definition ltb (x y : number) : bool :=
  match x, y with
  | NaN, _ | _, NaN => false
  | _, _ => negb (leb y x)
  end.

(** [x === y] on numbers: [NaN] equals nothing, [+0] equals [-0]. *)
Definition strict_eq (x y : number) : bool := leb x y && leb y x.

(** The sign bit, which tells the two zeros apart. *)
Definition signbit (x : number) : bool :=
  match x with NaN => false | Inf s => s | Fin s _ => s end.

(** [Math.max(x, y)]: [NaN] if either is, and [+0] is above [-0]. *)
Definition Math_max (x y : number) : number :=
  match x, y with
  | NaN, _ | _, NaN => NaN
  | _, _ =>
      if ltb x y then y
      else if ltb y x then x
      else if signbit x then y else x
  end.

(** [Math.min(x, y)]: [NaN] if either is, and [-0] is below [+0]. *)
Definition Math_min (x y : number) : number :=
  match x, y with
  | NaN, _ | _, NaN => NaN
  | _, _ =>
      if ltb x y then x
      else if ltb y x then y
      else if signbit x then x else y
  end.

(** [Math.floor(x)] *)
Definition Math_floor (x : number) : number :=
  match x with
  | Fin false m => Fin false (m / one * one)
  | Fin true m => Fin true (- ((- m) / one) * one)
  | _ => x
  end.

(** ** Strings

    A string is kept as its UTF-8 bytes: every character the code inspects is
    ASCII, except the pound sign it prints. *)

Definition is_digit (c : ascii) : bool :=
  let n := Z.of_nat (nat_of_ascii c) in (48 <=? n) && (n <=? 57).

Definition digit_val (c : ascii) : Z := Z.of_nat (nat_of_ascii c) - 48.

(** [s.startsWith(p)] *)
Fixpoint startsWith (p s : string) : bool :=
  match p, s with
  | EmptyString, _ => true
  | String a p', String b s' => Ascii.eqb a b && startsWith p' s'
  | String _ _, EmptyString => false
  end.

(** [s.includes(c)] for a one-character needle. *)
Fixpoint includes (c : ascii) (s : string) : bool :=
  match s with
  | EmptyString => false
  | String a s' => Ascii.eqb a c || includes c s'
  end.

(** A string is truthy when it is not empty. *)
Definition truthy (s : string) : bool :=
  match s with EmptyString => false | String _ _ => true end.

(** The one-byte white space and line terminators: TAB, LF, VT, FF, CR, SP. *)
Definition is_space (c : ascii) : bool :=
  let n := Z.of_nat (nat_of_ascii c) in ((9 <=? n) && (n <=? 13)) || (n =? 32).

(** The white space and line terminators that take two or three bytes:
    U+00A0, U+1680, U+2000 to U+200A, U+2028, U+2029, U+202F, U+205F, U+3000
    and U+FEFF.  [wide_space a b c] tells how many bytes of [a b c] are one. *)
Definition wide_space (a b c : Z) : nat :=
  if (a =? 194) && (b =? 160) then 2%nat
  else if (a =? 225) && (b =? 154) && (c =? 128) then 3%nat
  else if (a =? 226) && (b =? 128)
          && (((128 <=? c) && (c <=? 138)) || (c =? 168) || (c =? 169) || (c =? 175))
       then 3%nat
  else if (a =? 226) && (b =? 129) && (c =? 159) then 3%nat
  else if (a =? 227) && (b =? 128) && (c =? 128) then 3%nat
  else if (a =? 239) && (b =? 187) && (c =? 191) then 3%nat
  else 0%nat.

Definition code (c : ascii) : Z := Z.of_nat (nat_of_ascii c).

(** [s.trimStart()] *)
Fixpoint trimStart (s : string) : string :=
  match s with
  | EmptyString => s
  | String a s1 =>
      if is_space a then trimStart s1
      else
        match s1 with
        | String b s2 =>
            match s2 with
            | String c s3 =>
                match wide_space (code a) (code b) (code c) with
                | 2%nat => trimStart s2
                | 3%nat => trimStart s3
                | _ => s
                end
            | EmptyString =>
                match wide_space (code a) (code b) 0 with
                | 2%nat => trimStart s2
                | _ => s
                end
            end
        | EmptyString => s
        end
  end.

(** The decimal digits of a natural number, ["0"] for zero. *)
Definition digits_of (n : Z) : string :=
  NilZero.string_of_uint (N.to_uint (Z.to_N n)).

(** [n] copies of the character ["0"]. *)
Fixpoint zeros (n : nat) : string :=
  match n with O => EmptyString | S n' => String "0" (zeros n') end.

(** The first [n] characters of [s], and the rest. *)
Fixpoint take (n : nat) (s : string) : string :=
  match n, s with
  | S n', String a s' => String a (take n' s')
  | _, _ => EmptyString
  end.

Fixpoint drop (n : nat) (s : string) : string :=
  match n, s with
  | S n', String _ s' => drop n' s'
  | _, _ => s
  end.

(** [s.split(c)] for a one-character separator: the pieces between the
    separators, at least one. *)
Fixpoint split (c : ascii) (s : string) : list string :=
  match s with
  | EmptyString => [EmptyString]
  | String a s' =>
      if Ascii.eqb a c then EmptyString :: split c s'
      else
        match split c s' with
        | piece :: rest => String a piece :: rest
        | [] => [String a EmptyString]
        end
  end.

(** ** [Number.parseFloat] *)

(** The longest run of decimal digits [s] starts with: the integer it
    denotes after the digits [acc] read so far, how many there are, and what
    follows them. *)
Fixpoint read_digits (acc : Z) (s : string) : Z * nat * string :=
  match s with
  | String a s' =>
      if is_digit a then
        let '(v, n, r) := read_digits (acc * 10 + digit_val a) s' in (v, S n, r)
      else (acc, O, s)
  | EmptyString => (acc, O, s)
  end.

(** The exponent part ([e] or [E], an optional sign, digits) when [s] starts
    with a complete one, and zero otherwise. *)
Definition read_exponent (s : string) : Z :=
  match s with
  | String a s1 =>
      if Ascii.eqb a "e" || Ascii.eqb a "E" then
        let '(sign, s2) :=
          match s1 with
          | String b s2 =>
              if Ascii.eqb b "-" then (true, s2)
              else if Ascii.eqb b "+" then (false, s2)
              else (false, s1)
          | EmptyString => (false, s1)
          end in
        let '(v, n, _) := read_digits 0 s2 in
        match n with O => 0 | S _ => if sign then - v else v end
      else 0
  | EmptyString => 0
  end.

(** [Number.parseFloat(s)]: white space is skipped, then the longest prefix
    that is a decimal literal is read; [NaN] when there is none. *)
Definition parseFloat (s : string) : number :=
  let t := trimStart s in
  let '(sign, t1) :=
    match t with
    | String a t' =>
        if Ascii.eqb a "-" then (true, t')
        else if Ascii.eqb a "+" then (false, t')
        else (false, t)
    | EmptyString => (false, t)
    end in
  if startsWith "Infinity" t1 then Inf sign
  else
    let '(ip, ni, r1) := read_digits 0 t1 in
    let '(d, nf, r2) :=
      match r1 with
      | String a r =>
          if Ascii.eqb a "." then read_digits ip r else (ip, O, r1)
      | EmptyString => (ip, O, r1)
      end in
    match (ni + nf)%nat with
    | O => NaN
    | S _ => of_decimal sign d (read_exponent r2 - Z.of_nat nf)
    end.

(** ** Numbers to strings *)

(** The decimal exponent [n] of [a / b > 0]: [10^(n-1) <= a / b < 10^n].
    [fuel] bounds the search; 400 covers every binary64 value. *)
Fixpoint exp_up (fuel : nat) (a b n : Z) : Z :=
  match fuel with
  | O => n
  | S f => if a <? b * 10 ^ n then n else exp_up f a b (n + 1)
  end.

Fixpoint exp_down (fuel : nat) (a b n : Z) : Z :=
  match fuel with
  | O => n
  | S f => if b <=? a * 10 ^ (1 - n) then n else exp_down f a b (n - 1)
  end.

Definition dec_exp (a b : Z) : Z :=
  if b <=? a then exp_up 400 a b 1 else exp_down 400 a b 0.

(** [c * 10^e] as a fraction of units. *)
Definition scaled (c e : Z) : Z * Z :=
  if 0 <=? e then (c * 10 ^ e * one, 1) else (c * one, 10 ^ (- e)).

(** Does the decimal [c * 10^e] denote the number of magnitude [m]? *)
Definition denotes (m c e : Z) : bool :=
  let '(a, b) := scaled c e in rnd a b =? m.

(** The shortest decimal that denotes the magnitude [m > 0]: its digits [s],
    their number [k] and the exponent [n], the value being
    [s * 10^(n-k)].  Of two candidates with [k] digits the nearer to [m] is
    taken. *)
Fixpoint shortest (fuel : nat) (m n k : Z) : Z * Z * Z :=
  let lo := (m * 10 ^ Z.max 0 (k - n)) / (one * 10 ^ Z.max 0 (n - k)) in
  let hi := lo + 1 in
  let ok_lo := (10 ^ (k - 1) <=? lo) && denotes m lo (n - k) in
  let ok_hi := denotes m hi (n - k) in
  let nearer_hi :=
    (* hi - x < x - lo, with x = m / one / 10^(n-k) *)
    (hi + lo) * (one * 10 ^ Z.max 0 (n - k)) <? 2 * (m * 10 ^ Z.max 0 (k - n)) in
  let pick c := if c =? 10 ^ k then (1, 1, n + 1) else (c, k, n) in
  match fuel with
  | O => pick lo
  | S f =>
      if ok_lo && ok_hi then (if nearer_hi then pick hi else pick lo)
      else if ok_lo then pick lo
      else if ok_hi then pick hi
      else shortest f m n (k + 1)
  end.

(** [Number::toString] of a positive finite magnitude. *)
Definition magnitude_to_string (m : Z) : string :=
  let '(s, k, n) := shortest 17 m (dec_exp m one) 1 in
  let ds := digits_of s in
  if (k <=? n) && (n <=? 21) then
    ds +:+ zeros (Z.to_nat (n - k))
  else if (0 <? n) && (n <=? 21) then
    take (Z.to_nat n) ds +:+ "." +:+ drop (Z.to_nat n) ds
  else if (-6 <? n) && (n <=? 0) then
    "0." +:+ zeros (Z.to_nat (- n)) +:+ ds
  else
    let e := n - 1 in
    let es := (if e <? 0 then "-" else "+") +:+ digits_of (Z.abs e) in
    if k =? 1 then ds +:+ "e" +:+ es
    else take 1 ds +:+ "." +:+ drop 1 ds +:+ "e" +:+ es.

(** [String(x)], which a template literal applies to a number. *)
Definition toString (x : number) : string :=
  match x with
  | NaN => "NaN"
  | Inf s => if s then "-Infinity" else "Infinity"
  | Fin s m =>
      if m =? 0 then "0"
      else (if s then "-" else "") +:+ magnitude_to_string m
  end.

(** [10^21] in units: from there on [toFixed] answers as [toString] does. *)
Definition fixed_limit : Z := 10 ^ 21 * one.

(** The integer [n] nearest to [x * 10^f], the larger of two. *)
Definition fixed_units (m : Z) (f : nat) : Z :=
  (2 * m * 10 ^ Z.of_nat f + one) / (2 * one).

(** The digits of [n] with a point before the last [f] of them, padded with
    zeros on the left to [f + 1] digits. *)
Definition fixed_digits (n : Z) (f : nat) : string :=
  let ds := digits_of n in
  match f with
  | O => ds
  | S _ =>
      let k := String.length ds in
      let padded := zeros (S f - k) +:+ ds in
      let cut := (String.length padded - f)%nat in
      take cut padded +:+ "." +:+ drop cut padded
  end.

(** [x.toFixed(f)] for [0 <= f <= 100]. *)
Definition toFixed (x : number) (f : nat) : string :=
  match x with
  | Fin s m =>
      (if s && (0 <? m) then "-" else "")
      +:+ (if fixed_limit <=? m then toString (Fin false m)
           else fixed_digits (fixed_units m f) f)
  | _ => toString x
  end.

(** ** Arrays *)

(** The array index a number denotes as a property key: a non-negative
    integer, [-0] included. *)
Definition array_index (x : number) : option nat :=
  match x with
  | Fin s m =>
      if (m mod one =? 0) && (negb s || (m =? 0)) then Some (Z.to_nat (m / one))
      else None
  | _ => None
  end.

(** [xs[i]]: [undefined], here [None], when [i] is no index of [xs]. *)
Definition array_get {A : Type} (xs : list A) (i : number) : option A :=
  match array_index i with
  | Some n => nth_error xs n
  | None => None
  end.

(** [xs.sort(compare)] places [a] after [b] when [compare(a, b) > 0].  The
    sort is stable, so with a consistent comparator the result is the one of
    insertion from the right. *)
Section Sort.
Context {A : Type} (after : A -> A -> bool).

Fixpoint insert_sorted (x : A) (xs : list A) : list A :=
  match xs with
  | [] => [x]
  | y :: ys => if after x y then y :: insert_sorted x ys else x :: xs
  end.

Fixpoint sort (xs : list A) : list A :=
  match xs with
  | [] => []
  | x :: xs' => insert_sorted x (sort xs')
  end.
End Sort.

(** The scale and everything defined from it stay folded under [simpl]. *)
Arguments one : simpl never.
Arguments overflow : simpl never.
Arguments fixed_limit : simpl never.
Arguments rnd : simpl never.
Arguments round : simpl never.
Arguments of_Z : simpl never.
Arguments of_decimal : simpl never.
Arguments parseFloat : simpl never.
Arguments toString : simpl never.
Arguments toFixed : simpl never.

End JS.

(** Proofs use the two scale constants through their equations; only
    evaluation looks inside them. *)
Lemma one_eq : JS.one = 2 ^ 1074.
Proof. reflexivity. Qed.

Lemma overflow_eq : JS.overflow = 2 ^ 2098.
Proof. reflexivity. Qed.

Lemma fixed_limit_eq : JS.fixed_limit = 10 ^ 21 * JS.one.
Proof. reflexivity. Qed.

Global Opaque JS.one JS.overflow JS.fixed_limit.

Import JS.

(* ===================================================================== *)
(** * Part II: the functions of [App.tsx] *)
(* ===================================================================== *)

(** A CSV row as the parser hands it over with [header: true]: an object
    from column names to cells.  A column the row lacks is [undefined]. *)
Abbreviation FuelRow := (gmap string string).

Module FuelPoint.
Record t : Type := mk {
  id : string;
  lat : number;
  lng : number;
  tradingName : string;
  brand : string;
  address : string;
  postcode : string;
  updated : string;
  prices : gmap string string;
  hasPrices : bool;
  displayPrice : option string;
  displayPriceValue : option number
}.
End FuelPoint.

Definition priceKeys : list string :=
  [ "forecourts.fuel_price.E5"; "forecourts.fuel_price.E10";
    "forecourts.fuel_price.B7P"; "forecourts.fuel_price.B7S";
    "forecourts.fuel_price.B10"; "forecourts.fuel_price.HVO" ]%string.

(** The fuel types in the order [getDisplayPrice] and [getDisplayPriceValue]
    look them up. *)
Definition preferred : list string :=
  [ "E10"; "E5"; "B7S"; "B7P"; "B10"; "HVO" ]%string.

Definition toNumber (value : string) : option number :=
  let parsed := parseFloat value in
  if isFinite parsed then Some parsed else None.

(** [value.replace(/^'+/, '')]: the apostrophes the string starts with go. *)
Fixpoint normalizePrice (value : string) : string :=
  match value with
  | String a rest => if Ascii.eqb a "'" then normalizePrice rest else value
  | EmptyString => value
  end.

Definition formatPriceLabel (value : string) : string :=
  let parsed := parseFloat value in
  if negb (isFinite parsed) then value
  else
    let pounds := div parsed (of_Z 100) in
    "£" +:+ toFixed pounds 2.

Definition toPounds (value : string) : option number :=
  let parsed := parseFloat value in
  if negb (isFinite parsed) then None
  else Some (div parsed (of_Z 100)).

Definition formatPriceValue (value : string) : string :=
  let parsed := parseFloat value in
  if negb (isFinite parsed) then value
  else
    let pounds := div parsed (of_Z 100) in
    "£" +:+ toFixed pounds 3.

(** [obj[key]] when it is a non-empty string: what [if (value)] lets through. *)
Definition truthy_at (obj : gmap string string) (key : string) : option string :=
  match obj !! key with
  | Some value => if truthy value then Some value else None
  | None => None
  end.

(** The loop of [getDisplayPrice] over the keys still to visit. *)
Fixpoint getDisplayPrice_from (keys : list string) (prices : gmap string string)
  : option string :=
  match keys with
  | [] => None
  | key :: rest =>
      match truthy_at prices key with
      | Some value => Some (formatPriceLabel value)
      | None => getDisplayPrice_from rest prices
      end
  end.

Definition getDisplayPrice (prices : gmap string string) : option string :=
  getDisplayPrice_from preferred prices.

(** The loop of [getDisplayPriceValue]. *)
Fixpoint getDisplayPriceValue_from (keys : list string) (prices : gmap string string)
  : option number :=
  match keys with
  | [] => None
  | key :: rest =>
      match truthy_at prices key with
      | Some value => toPounds value
      | None => getDisplayPriceValue_from rest prices
      end
  end.

Definition getDisplayPriceValue (prices : gmap string string) : option number :=
  getDisplayPriceValue_from preferred prices.

(** The interpolation parameter [t] and the hue [priceToColor] computes once
    its guard has passed. *)
Definition priceT (value min max : number) : number :=
  Math_min (of_Z 1) (Math_max (of_Z 0) (div (sub value min) (sub max min))).

Definition priceHue (value min max : number) : number :=
  let t := priceT value min max in
  sub (of_Z 120) (mul (of_Z 120) t).

Definition priceToColor (value min max : number) : string :=
  if negb (isFinite value) || strict_eq min max then "#16a34a"
  else "hsl(" +:+ toString (priceHue value min max) +:+ ", 70%, 45%)".

(** ** [handleFile] *)

(** What the CSV parser reports: the rows, and the errors it met. *)
Record ParseError : Type := { message : string }.
Record ParseResult : Type := { data : list FuelRow; errors : list ParseError }.

(** The parser ends in its [complete] or in its [error] callback. *)
Inductive ParseOutcome : Type :=
  | Complete (results : ParseResult)
  | Failed (error : ParseError).

(** The state setters [handleFile] calls, and its call of the parser. *)
Inductive action : Type :=
  | SetFileName (name : string)
  | SetParseError (msg : string)
  | SetRows (points : list FuelPoint.t)
  | PapaParse (text : string).

(** [row[key] || fallback] *)
Definition or_else (row : FuelRow) (key fallback : string) : string :=
  match truthy_at row key with Some v => v | None => fallback end.

(** [parts.join(sep)] *)
Fixpoint join (sep : string) (parts : list string) : string :=
  match parts with
  | [] => ""
  | [p] => p
  | p :: rest => p +:+ sep +:+ join sep rest
  end.

(** [key.split('.').pop() ?? key] *)
Definition shortKey (key : string) : string :=
  match last (split "." key) with Some k => k | None => key end.

(** The loop that fills [prices], over the keys still to visit. *)
Fixpoint collectPrices (keys : list string) (row : FuelRow)
    (prices : gmap string string) : gmap string string :=
  match keys with
  | [] => prices
  | key :: rest =>
      match truthy_at row key with
      | Some value =>
          collectPrices rest row (<[shortKey key := normalizePrice value]> prices)
      | None => collectPrices rest row prices
      end
  end.

(** One turn of the loop over the rows: [None] is its [continue]. *)
Definition rowToPoint (row : FuelRow) : option FuelPoint.t :=
  match toNumber (default "" (row !! "forecourts.location.latitude")),
        toNumber (default "" (row !! "forecourts.location.longitude")) with
  | Some lat, Some lng =>
      let tradingName := or_else row "forecourts.trading_name" "Unknown site" in
      let brand := or_else row "forecourts.brand_name" "Unknown brand" in
      let address :=
        join ", "
          (omap (truthy_at row)
             [ "forecourts.location.address_line_1";
               "forecourts.location.address_line_2";
               "forecourts.location.city";
               "forecourts.location.county" ]%string) in
      let postcode := or_else row "forecourts.location.postcode" "" in
      let updated := or_else row "latest_update_timestamp" "" in
      let prices := collectPrices priceKeys row ∅ in
      let hasPrices := bool_decide (0 < size prices)%nat in
      let displayPrice := if hasPrices then getDisplayPrice prices else None in
      let displayPriceValue :=
        if hasPrices then getDisplayPriceValue prices else None in
      Some
        {| FuelPoint.id :=
             or_else row "forecourts.node_id" (toString lat +:+ "," +:+ toString lng);
           FuelPoint.lat := lat;
           FuelPoint.lng := lng;
           FuelPoint.tradingName := tradingName;
           FuelPoint.brand := brand;
           FuelPoint.address := address;
           FuelPoint.postcode := postcode;
           FuelPoint.updated := updated;
           FuelPoint.prices := prices;
           FuelPoint.hasPrices := hasPrices;
           FuelPoint.displayPrice := displayPrice;
           FuelPoint.displayPriceValue := displayPriceValue |}
  | _, _ => None
  end.

(** The points of the rows, in their order. *)
Definition toPoints (rows : list FuelRow) : list FuelPoint.t := omap rowToPoint rows.

(** The [complete] callback. *)
Definition complete (results : ParseResult) : list action :=
  match errors results with
  | e :: _ => [SetParseError (message e)]
  | [] => []
  end ++ [SetRows (toPoints (data results))].

Definition notCsvMessage : string :=
  "This file does not look like the CSV (it looks like HTML or has no commas). Please re-download the CSV and try again.".

(** The test [reader.onload] makes before it calls the parser. *)
Definition looksWrong (text : string) : bool :=
  let trimmed := trimStart text in
  negb (includes "," trimmed)
  || startsWith "<!DOCTYPE" trimmed
  || startsWith "<html" trimmed.

(** [reader.onload], given what the parser does with a text. *)
Definition onload (parse : string -> ParseOutcome) (text : string) : list action :=
  if looksWrong text then [SetParseError notCsvMessage; SetRows []]
  else
    PapaParse text ::
    match parse text with
    | Complete results => complete results
    | Failed error => [SetParseError (message error)]
    end.


(** The component's state and what the setters do to it. *)
Record AppState : Type := {
  fileName : string;
  rows : list FuelPoint.t;
  parseError : string
}.

Definition initialState : AppState :=
  {| fileName := ""; rows := []; parseError := "" |}.

Definition perform (st : AppState) (a : action) : AppState :=
  match a with
  | SetFileName name =>
      {| fileName := name; rows := rows st; parseError := parseError st |}
  | SetParseError msg =>
      {| fileName := fileName st; rows := rows st; parseError := msg |}
  | SetRows points =>
      {| fileName := fileName st; rows := points; parseError := parseError st |}
  | PapaParse _ => st
  end.

Definition run (st : AppState) (acts : list action) : AppState :=
  fold_left perform acts st.

(** ** [priceRange] *)

Module PriceRange.
Record t : Type := mk { min : option number; max : option number }.
End PriceRange.

(** The comparator [(a, b) => a - b] puts [a] after [b] when [a - b > 0]. *)
Definition byDifference (a b : number) : bool := ltb (of_Z 0) (sub a b).

(** The inner function [pick] of [priceRange]. *)
Definition pick (sorted : list number) (p : number) : option number :=
  let idx := Math_floor (mul p (sub (of_Z (Z.of_nat (length sorted))) (of_Z 1))) in
  array_get sorted idx.

Definition priceRange (rows : list FuelPoint.t) : option PriceRange.t :=
  let values := omap FuelPoint.displayPriceValue rows in
  match values with
  | [] => None
  | _ :: _ =>
      let sorted := JS.sort byDifference values in
      Some {| PriceRange.min := pick sorted (of_decimal false 1 (-1));
              PriceRange.max := pick sorted (of_decimal false 9 (-1)) |}
  end.

(* ===================================================================== *)
(** * Part III: rounding *)
(* ===================================================================== *)

(** Large powers of two are named before arithmetic is left to [lia], which
    would otherwise expand them. *)
Ltac hide c :=
  let P := fresh "P" in
  let E := fresh "E" in
  remember c as P eqn:E; clear E.

Section Rounding.

(** [rne a b] is within one half of [a / b], and even when it is exactly one
    half away. *)
Lemma rne_spec a b :
  0 < b ->
  (2 * rne a b - 1) * b <= 2 * a <= (2 * rne a b + 1) * b
  /\ (2 * a = (2 * rne a b - 1) * b -> Z.even (rne a b) = true)
  /\ (2 * a = (2 * rne a b + 1) * b -> Z.even (rne a b) = true).
Proof.
  intros Hb. unfold rne.
  pose proof (Z.div_mod a b ltac:(lia)) as Hdm.
  pose proof (Z.mod_pos_bound a b Hb) as Hr.
  set (q := a / b) in *. set (r := a mod b) in *.
  destruct (Z.compare_spec (2 * r) b) as [He | Hl | Hg].
  - destruct (Z.even q) eqn:Hq.
    + split; [nia | split; [intros; nia | auto]].
    + split; [nia | split; [| intros; nia]].
      intros _. rewrite Z.even_add, Hq. reflexivity.
  - split; [nia | split; intros; nia].
  - split; [nia | split; intros; nia].
Qed.

Lemma rne_mono a1 b1 a2 b2 :
  0 < b1 -> 0 < b2 -> a1 * b2 <= a2 * b1 -> rne a1 b1 <= rne a2 b2.
Proof.
  intros Hb1 Hb2 Hle.
  destruct (rne_spec a1 b1 Hb1) as ([L1 _] & E1 & _).
  destruct (rne_spec a2 b2 Hb2) as ([_ U2] & _ & E2).
  set (z1 := rne a1 b1) in *. set (z2 := rne a2 b2) in *.
  destruct (Z_le_gt_dec z1 z2) as [|Hgt]; [assumption | exfalso].
  assert (H1 : (2 * z1 - 1) * (b1 * b2) <= 2 * a1 * b2) by nia.
  assert (H2 : 2 * a2 * b1 <= (2 * z2 + 1) * (b1 * b2)) by nia.
  assert (Hbb : 0 < b1 * b2) by nia.
  assert (Hz : z1 = z2 + 1) by nia.
  assert (Ha1 : 2 * a1 = (2 * z1 - 1) * b1) by nia.
  assert (Ha2 : 2 * a2 = (2 * z2 + 1) * b2) by nia.
  specialize (E1 Ha1). specialize (E2 Ha2).
  rewrite Hz, Z.even_add, E2 in E1. discriminate.
Qed.

Lemma rne_exact z b : 0 < b -> rne (z * b) b = z.
Proof.
  intros Hb. unfold rne.
  rewrite Z.div_mul, Z.mod_mul by lia.
  destruct (Z.compare_spec (2 * 0) b); lia.
Qed.

Lemma rne_ge z a b : 0 < b -> z * b <= a -> z <= rne a b.
Proof.
  intros Hb H. rewrite <- (rne_exact z b Hb). apply rne_mono; nia.
Qed.

Lemma rne_le z a b : 0 < b -> a <= z * b -> rne a b <= z.
Proof.
  intros Hb H. rewrite <- (rne_exact z b Hb). apply rne_mono; nia.
Qed.

Lemma div_cross_mono a1 b1 a2 b2 :
  0 < b1 -> 0 < b2 -> a1 * b2 <= a2 * b1 -> a1 / b1 <= a2 / b2.
Proof.
  intros Hb1 Hb2 Hle.
  apply Z.div_le_lower_bound; [lia|].
  pose proof (Z.mul_div_le a1 b1 Hb1).
  nia.
Qed.

Lemma binade_nonneg a b : 0 <= binade a b.
Proof. unfold binade. lia. Qed.

Lemma binade_mono a1 b1 a2 b2 :
  0 < b1 -> 0 < b2 -> a1 * b2 <= a2 * b1 -> binade a1 b1 <= binade a2 b2.
Proof.
  intros Hb1 Hb2 Hle. unfold binade.
  pose proof (Z.log2_le_mono _ _ (div_cross_mono _ _ _ _ Hb1 Hb2 Hle)).
  lia.
Qed.

(** A magnitude lies below the top of its binade... *)
Lemma binade_upper a b : 0 < b -> a < 2 ^ (53 + binade a b) * b.
Proof.
  intros Hb. unfold binade.
  assert (Hq : a / b < 2 ^ (53 + Z.max 0 (Z.log2 (a / b) - 52))).
  { destruct (Z_le_gt_dec (a / b) 0) as [Hn | Hp].
    - pose proof (Z.pow_pos_nonneg 2 (53 + Z.max 0 (Z.log2 (a / b) - 52))). lia.
    - pose proof (Z.log2_spec (a / b) ltac:(lia)) as [_ Hu].
      eapply Z.lt_le_trans; [exact Hu|].
      apply Z.pow_le_mono_r; lia. }
  set (P := 2 ^ _) in *.
  pose proof (Z.div_mod a b ltac:(lia)). pose proof (Z.mod_pos_bound a b Hb).
  nia.
Qed.

(** ... and, past the first binade, at or above its bottom. *)
Lemma binade_lower a b :
  0 < b -> 0 < binade a b -> 2 ^ (52 + binade a b) * b <= a.
Proof.
  intros Hb. unfold binade. intros Hk.
  assert (Hp : 0 < a / b).
  { destruct (Z_le_gt_dec (a / b) 0) as [Hn | ]; [|lia].
    rewrite (Z.log2_nonpos _ Hn) in Hk. lia. }
  pose proof (Z.log2_spec (a / b) Hp) as [Hl _].
  replace (52 + Z.max 0 (Z.log2 (a / b) - 52)) with (Z.log2 (a / b)) by lia.
  pose proof (Z.mul_div_le a b Hb). nia.
Qed.

(** Rounding is monotone. *)
Lemma rnd_mono a1 b1 a2 b2 :
  0 < b1 -> 0 < b2 -> a1 * b2 <= a2 * b1 -> rnd a1 b1 <= rnd a2 b2.
Proof.
  intros Hb1 Hb2 Hle. unfold rnd.
  pose proof (binade_mono _ _ _ _ Hb1 Hb2 Hle) as Hk.
  pose proof (binade_nonneg a1 b1) as Hk1.
  pose proof (binade_upper a1 b1 Hb1) as Hu1.
  pose proof (binade_lower a2 b2 Hb2) as Hl2.
  set (k1 := binade a1 b1) in *. set (k2 := binade a2 b2) in *.
  assert (Hp1 : 0 < 2 ^ k1) by (apply Z.pow_pos_nonneg; lia).
  assert (Hp2 : 0 < 2 ^ k2) by (apply Z.pow_pos_nonneg; lia).
  destruct (Z.eq_dec k1 k2) as [<- | Hne].
  - apply Z.mul_le_mono_nonneg_l; [lia|].
    apply rne_mono; nia.
  - assert (H1 : rne a1 (b1 * 2 ^ k1) <= 2 ^ 53).
    { apply rne_le; [nia|]. rewrite Z.pow_add_r in Hu1 by lia. nia. }
    assert (H2 : 2 ^ 52 <= rne a2 (b2 * 2 ^ k2)).
    { apply rne_ge; [nia|]. specialize (Hl2 ltac:(lia)).
      rewrite Z.pow_add_r in Hl2 by lia. nia. }
    assert (H3 : 2 ^ k1 * 2 ^ 53 <= 2 ^ k2 * 2 ^ 52).
    { rewrite <- !Z.pow_add_r by lia. apply Z.pow_le_mono_r; lia. }
    nia.
Qed.

(** A magnitude [j * 2^l] with [j] below [2^53] is a binary64 magnitude:
    rounding leaves it as it is. *)
Lemma rnd_exact j l : 0 <= j < 2 ^ 53 -> 0 <= l -> rnd (j * 2 ^ l) 1 = j * 2 ^ l.
Proof.
  intros Hj Hl. unfold rnd.
  assert (Hpl : 0 < 2 ^ l) by (apply Z.pow_pos_nonneg; lia).
  pose proof (binade_nonneg (j * 2 ^ l) 1) as Hk0.
  assert (Hkl : binade (j * 2 ^ l) 1 <= l).
  { unfold binade. rewrite Z.div_1_r.
    destruct (Z.eq_dec j 0) as [-> | Hj0]; [simpl; lia|].
    rewrite Z.log2_mul_pow2 by lia.
    pose proof (Z.log2_lt_pow2 j 53 ltac:(lia)). lia. }
  set (k := binade _ _) in *.
  assert (Hpk : 0 < 2 ^ k) by (apply Z.pow_pos_nonneg; lia).
  replace (j * 2 ^ l) with (j * 2 ^ (l - k) * (1 * 2 ^ k)).
  - rewrite rne_exact by lia. ring.
  - replace l with (l - k + k) at 2 by lia.
    rewrite Z.pow_add_r by lia. ring.
Qed.

Lemma rnd_0 b : 0 < b -> rnd 0 b = 0.
Proof.
  intros Hb. unfold rnd, binade. rewrite Zdiv_0_l.
  change (Z.max 0 (Z.log2 0 - 52)) with 0. change (2 ^ 0) with 1.
  pose proof (rne_exact 0 (b * 1) ltac:(lia)) as H.
  rewrite Z.mul_0_l in H. lia.
Qed.

(** Rounding keeps a magnitude between the binary64 magnitudes it lies
    between. *)
Lemma rnd_ge j l a b :
  0 <= j < 2 ^ 53 -> 0 <= l -> 0 < b -> j * 2 ^ l * b <= a -> j * 2 ^ l <= rnd a b.
Proof.
  intros Hj Hl Hb H. rewrite <- (rnd_exact j l Hj Hl). apply rnd_mono; lia.
Qed.

Lemma rnd_le j l a b :
  0 <= j < 2 ^ 53 -> 0 <= l -> 0 < b -> a <= j * 2 ^ l * b -> rnd a b <= j * 2 ^ l.
Proof.
  intros Hj Hl Hb H. rewrite <- (rnd_exact j l Hj Hl). apply rnd_mono; lia.
Qed.

Lemma rnd_nonneg a b : 0 < b -> 0 <= a -> 0 <= rnd a b.
Proof.
  intros Hb Ha. rewrite <- (rnd_0 b Hb). apply rnd_mono; nia.
Qed.

Lemma rnd_pos a : 1 <= a -> 1 <= rnd a 1.
Proof.
  intros Ha. apply (rnd_ge 1 0); lia.
Qed.

End Rounding.

(* ===================================================================== *)
(** * Part IV: numbers *)
(* ===================================================================== *)

Section Numbers.

Lemma one_pos : 0 < one.
Proof. rewrite one_eq. apply Z.pow_pos_nonneg; lia. Qed.

Lemma overflow_one : overflow = 2 ^ 1024 * one.
Proof. rewrite overflow_eq, one_eq, <- Z.pow_add_r by lia. reflexivity. Qed.

Lemma one_lt_overflow : one < overflow.
Proof.
  rewrite overflow_one. pose proof one_pos.
  assert (1 < 2 ^ 1024) by (apply Z.pow_gt_1; lia).
  hide (2 ^ 1024). nia.
Qed.

Lemma pack_fin s m : m < overflow -> pack s m = Fin s m.
Proof. intros H. unfold pack. destruct (Z.ltb_spec m overflow); [reflexivity | lia]. Qed.

Lemma pack_inf s m : overflow <= m -> pack s m = Inf s.
Proof. intros H. unfold pack. destruct (Z.ltb_spec m overflow); [lia | reflexivity]. Qed.

(** The integers below [2^53] are numbers. *)
Lemma of_Z_small n : 0 <= n < 2 ^ 53 -> of_Z n = Fin false (n * one).
Proof.
  intros Hn. unfold of_Z, round.
  destruct (Z.ltb_spec n 0); [lia|].
  rewrite Z.abs_eq by lia.
  rewrite one_eq at 1. rewrite rnd_exact by lia. rewrite <- one_eq.
  apply pack_fin. rewrite overflow_one. pose proof one_pos.
  assert (2 ^ 53 < 2 ^ 1024) by (apply Z.pow_lt_mono_r; lia).
  hide (2 ^ 1024). nia.
Qed.

Lemma of_Z_0 : of_Z 0 = Fin false 0.
Proof. rewrite of_Z_small by lia. rewrite Z.mul_0_l. reflexivity. Qed.

Lemma of_Z_1 : of_Z 1 = Fin false one.
Proof. rewrite of_Z_small by lia. rewrite Z.mul_1_l. reflexivity. Qed.

(** The units of [2^1022], a quarter of the overflow threshold. *)
Definition moderateLimit : Z := 2 ^ 2096.

(** A magnitude of at most [2^1022]: neither a sum nor a difference of two
    such numbers overflows. *)
Definition moderate (x : number) : bool :=
  match x with
  | Fin _ m => (0 <=? m) && (m <=? moderateLimit)
  | _ => false
  end.

(** The signed scaled integer of a finite number. *)
Definition signed (x : number) : Z :=
  match x with Fin s m => sval s m | _ => 0 end.

Lemma moderateLimit_eq : moderateLimit = 2 ^ 2096.
Proof. reflexivity. Qed.

Global Opaque moderateLimit.

Lemma moderateLimit_pos : 0 < moderateLimit.
Proof. rewrite moderateLimit_eq. apply Z.pow_pos_nonneg; lia. Qed.

Lemma moderateLimit_pow : moderateLimit = 1 * 2 ^ 2096.
Proof. rewrite Z.mul_1_l. apply moderateLimit_eq. Qed.

Lemma double_moderateLimit_pow : 2 * moderateLimit = 1 * 2 ^ 2097.
Proof.
  rewrite moderateLimit_eq, Z.mul_1_l. change 2097 with (1 + 2096).
  rewrite Z.pow_add_r by lia. reflexivity.
Qed.

Lemma overflow_moderateLimit : overflow = 4 * moderateLimit.
Proof.
  rewrite overflow_eq, moderateLimit_eq. change 2098 with (2 + 2096).
  rewrite Z.pow_add_r by lia. reflexivity.
Qed.

Lemma moderateLimit_one : 64 * one <= moderateLimit.
Proof.
  rewrite moderateLimit_eq, one_eq. change 2096 with (1022 + 1074).
  rewrite Z.pow_add_r by lia.
  apply Z.mul_le_mono_nonneg_r; [apply Z.pow_nonneg; lia|].
  change 64 with (2 ^ 6). apply Z.pow_le_mono_r; lia.
Qed.

Lemma moderate_inv x :
  moderate x = true -> exists s m, x = Fin s m /\ 0 <= m <= moderateLimit.
Proof.
  destruct x as [| |s m]; simpl; try discriminate.
  intros H. apply andb_true_iff in H as [H1 H2].
  exists s, m. split; [reflexivity | lia].
Qed.

Lemma double_moderateLimit_lt_overflow : 2 * moderateLimit < overflow.
Proof. rewrite overflow_moderateLimit. pose proof moderateLimit_pos. lia. Qed.

(** The magnitude of a difference of moderate numbers. *)
Lemma rnd_diff_bound z :
  0 <= z <= 2 * moderateLimit -> 0 <= rnd z 1 <= 2 * moderateLimit.
Proof.
  intros Hz. split; [apply rnd_nonneg; lia|].
  rewrite double_moderateLimit_pow. apply rnd_le; [lia | lia | lia |].
  rewrite <- double_moderateLimit_pow. lia.
Qed.

(** The difference of finite numbers is positive exactly when the first is
    the larger. *)
Lemma byDifference_fin s1 m1 s2 m2 :
  byDifference (Fin s1 m1) (Fin s2 m2) = (sval s2 m2 <? sval s1 m1).
Proof.
  unfold byDifference, sub, add, neg. rewrite of_Z_0.
  replace (sval s1 m1 + sval (negb s2) m2) with (sval s1 m1 - sval s2 m2)
    by (destruct s2; simpl; lia).
  generalize (sval s1 m1) (sval s2 m2). intros a b.
  destruct (Z.eqb_spec (a - b) 0) as [H0 | Hn].
  - unfold ltb, leb, sval. destruct (s1 && negb s2); simpl;
      destruct (Z.ltb_spec b a); lia.
  - unfold round, pack.
    pose proof (rnd_pos (Z.abs (a - b)) ltac:(lia)) as Hp.
    destruct (rnd (Z.abs (a - b)) 1 <? overflow); unfold ltb, leb, sval;
      destruct (Z.ltb_spec (a - b) 0); simpl;
      destruct (Z.ltb_spec b a); try lia; try reflexivity.
Qed.

End Numbers.

(* ===================================================================== *)
(** * Part V: sorting *)
(* ===================================================================== *)

Section SortFacts.
Context {A : Type} (after : A -> A -> bool) (key : A -> Z) (P : A -> Prop).
Hypothesis after_key : forall a b, P a -> P b -> after a b = (key b <? key a).

Let ordered (a b : A) : Prop := key a <= key b.

Lemma insert_sorted_perm x xs :
  Permutation (insert_sorted after x xs) (x :: xs).
Proof.
  induction xs as [|y ys IH]; simpl; [reflexivity|].
  destruct (after x y); [|reflexivity].
  rewrite IH. apply perm_swap.
Qed.

Lemma sort_perm xs : Permutation (JS.sort after xs) xs.
Proof.
  induction xs as [|x xs IH]; simpl; [reflexivity|].
  rewrite insert_sorted_perm. apply perm_skip, IH.
Qed.

Lemma sort_length xs : length (JS.sort after xs) = length xs.
Proof. apply Permutation_length, sort_perm. Qed.

Lemma sort_Forall xs : Forall P xs -> Forall P (JS.sort after xs).
Proof. intros H. eapply Permutation_Forall; [symmetry; apply sort_perm | exact H]. Qed.

Lemma insert_sorted_HdRel y x xs :
  ordered y x -> HdRel ordered y xs -> HdRel ordered y (insert_sorted after x xs).
Proof.
  intros Hyx Hy. destruct xs as [|z zs]; simpl; [constructor; exact Hyx|].
  destruct (after x z); constructor; [|exact Hyx].
  inversion Hy; assumption.
Qed.

Lemma insert_sorted_sorted x xs :
  P x -> Forall P xs -> Sorted ordered xs -> Sorted ordered (insert_sorted after x xs).
Proof.
  intros Hx HP Hs. induction xs as [|y ys IH]; simpl.
  - repeat constructor.
  - inversion HP as [|? ? Hy HPys]; subst. inversion Hs as [|? ? Hsys Hhd]; subst.
    rewrite (after_key x y Hx Hy).
    destruct (Z.ltb_spec (key y) (key x)).
    + constructor; [apply IH; assumption|].
      apply insert_sorted_HdRel; [unfold ordered; lia | assumption].
    + constructor; [assumption|]. constructor. unfold ordered. lia.
Qed.

Lemma sort_sorted xs : Forall P xs -> Sorted ordered (JS.sort after xs).
Proof.
  induction xs as [|x xs IH]; simpl; intros HP; [constructor|].
  inversion HP; subst.
  apply insert_sorted_sorted; [assumption | apply sort_Forall; assumption | auto].
Qed.
End SortFacts.

(** Sorting finite numbers by their difference puts them in ascending
    order. *)
Lemma sort_byDifference_sorted (values : list number) :
  Forall (fun x => isFinite x = true) values ->
  Sorted (fun a b => leb a b = true) (JS.sort byDifference values)
  /\ Forall (fun x => isFinite x = true) (JS.sort byDifference values).
Proof.
  intros Hfin.
  assert (Hkey : forall a b, isFinite a = true -> isFinite b = true ->
                             byDifference a b = (signed b <? signed a)).
  { intros [| |s1 m1] [| |s2 m2]; simpl; try discriminate. intros _ _.
    apply byDifference_fin. }
  pose proof (sort_Forall byDifference _ values Hfin) as Hall.
  split; [|exact Hall].
  pose proof (sort_sorted byDifference signed _ Hkey values Hfin) as Hs.
  revert Hs Hall. generalize (JS.sort byDifference values). intros l Hs.
  induction Hs as [|a l Hs IH Hhd]; intros Hall; constructor.
  - apply IH. inversion Hall; assumption.
  - inversion Hall as [|? ? Ha Hl]; subst.
    destruct Hhd as [|b l Hab]; constructor.
    inversion Hl as [|? ? Hb _]; subst.
    destruct a as [| |s1 m1]; try discriminate.
    destruct b as [| |s2 m2]; try discriminate.
    simpl in *. lia.
Qed.

(* ===================================================================== *)
(** * Part VI: what the parser and the price functions return *)
(* ===================================================================== *)

Lemma digit_val_nonneg c : is_digit c = true -> 0 <= digit_val c <= 9.
Proof.
  unfold is_digit, digit_val. intros H. apply andb_true_iff in H as [H1 H2]. lia.
Qed.

Lemma read_digits_nonneg s : forall acc, 0 <= acc -> 0 <= (read_digits acc s).1.1.
Proof.
  induction s as [|a s IH]; intros acc Hacc; simpl; [assumption|].
  destruct (is_digit a) eqn:Hd; simpl; [|assumption].
  pose proof (digit_val_nonneg a Hd).
  specialize (IH (acc * 10 + digit_val a) ltac:(lia)).
  destruct (read_digits (acc * 10 + digit_val a) s) as [[v n] r]. exact IH.
Qed.

Lemma round_bound neg a b s m :
  0 <= a -> 0 < b -> round neg a b = Fin s m -> 0 <= m < overflow.
Proof.
  intros Ha Hb. unfold round, pack.
  destruct (Z.ltb_spec (rnd a b) overflow); [|discriminate].
  intros [= <- <-]. split; [apply rnd_nonneg; assumption | assumption].
Qed.

Lemma of_decimal_bound neg d e s m :
  0 <= d -> of_decimal neg d e = Fin s m -> 0 <= m < overflow.
Proof.
  intros Hd. unfold of_decimal. pose proof one_pos.
  destruct (Z.eqb_spec d 0).
  - intros [= <- <-]. rewrite overflow_eq.
    assert (0 < 2 ^ 2098) by (apply Z.pow_pos_nonneg; lia). lia.
  - destruct (Z.leb_spec 0 e).
    + apply round_bound; [|lia].
      assert (0 < 10 ^ e) by (apply Z.pow_pos_nonneg; lia). nia.
    + apply round_bound; [nia|]. apply Z.pow_pos_nonneg; lia.
Qed.

(** A finite result of [parseFloat] is a magnitude below the overflow
    threshold. *)
Lemma parseFloat_bound value s m :
  parseFloat value = Fin s m -> 0 <= m < overflow.
Proof.
  unfold parseFloat.
  destruct (match trimStart value with
            | String a t' =>
                if Ascii.eqb a "-" then (true, t')
                else if Ascii.eqb a "+" then (false, t') else (false, trimStart value)
            | EmptyString => (false, trimStart value)
            end) as [sign t1].
  destruct (startsWith "Infinity" t1); [discriminate|].
  pose proof (read_digits_nonneg t1 0 ltac:(lia)) as Hip.
  destruct (read_digits 0 t1) as [[ip ni] r1]. simpl in Hip.
  assert (Hd : forall d nf r2,
             match r1 with
             | String a r => if Ascii.eqb a "." then read_digits ip r else (ip, O, r1)
             | EmptyString => (ip, O, r1)
             end = (d, nf, r2) -> 0 <= d).
  { intros d nf r2. destruct r1 as [|a r]; [intros [= <- _ _]; assumption|].
    destruct (Ascii.eqb a "."); [|intros [= <- _ _]; assumption].
    intros E. pose proof (read_digits_nonneg r ip Hip) as H. rewrite E in H. exact H. }
  destruct (match r1 with
            | String a r => if Ascii.eqb a "." then read_digits ip r else (ip, O, r1)
            | EmptyString => (ip, O, r1)
            end) as [[d nf] r2].
  specialize (Hd d nf r2 eq_refl).
  destruct (ni + nf)%nat; [discriminate|].
  apply of_decimal_bound. exact Hd.
Qed.

(** A price in pounds is a finite number of moderate magnitude. *)
Lemma toPounds_moderate value x : toPounds value = Some x -> moderate x = true.
Proof.
  unfold toPounds.
  destruct (parseFloat value) as [| |s m] eqn:Hp; simpl;
    [discriminate | discriminate |].
  intros Hx. apply (inj Some) in Hx. subst x. apply parseFloat_bound in Hp.
  rewrite (of_Z_small 100) by lia. unfold div. pose proof one_pos.
  destruct (Z.eqb_spec (100 * one) 0); [lia|].
  unfold round.
  assert (Hle : rnd (m * one) (100 * one) <= moderateLimit).
  { rewrite moderateLimit_pow. apply rnd_le; [lia | lia | lia |].
    rewrite <- moderateLimit_pow. rewrite overflow_moderateLimit in Hp.
    pose proof moderateLimit_pos. nia. }
  pose proof (rnd_nonneg (m * one) (100 * one) ltac:(lia) ltac:(nia)) as Hge.
  pose proof double_moderateLimit_lt_overflow as Hov. pose proof moderateLimit_pos.
  rewrite pack_fin by lia. unfold moderate.
  apply andb_true_iff. split; apply Z.leb_le; assumption.
Qed.

Lemma moderate_finite x : moderate x = true -> isFinite x = true.
Proof. destruct x; simpl; auto. Qed.

Lemma getDisplayPriceValue_from_moderate keys prices x :
  getDisplayPriceValue_from keys prices = Some x -> moderate x = true.
Proof.
  induction keys as [|key rest IH]; simpl; [discriminate|].
  destruct (truthy_at prices key); [apply toPounds_moderate | exact IH].
Qed.

Lemma rowToPoint_value_moderate row p x :
  rowToPoint row = Some p -> FuelPoint.displayPriceValue p = Some x ->
  moderate x = true.
Proof.
  unfold rowToPoint.
  destruct (toNumber _) as [lat|]; [|discriminate].
  destruct (toNumber _) as [lng|]; [|discriminate].
  intros [= <-]. simpl.
  destruct (bool_decide _); [|discriminate].
  apply getDisplayPriceValue_from_moderate.
Qed.

(** The numeric display prices of the parsed points. *)
Definition displayValues (points : list FuelPoint.t) : list number :=
  omap FuelPoint.displayPriceValue points.

Lemma toPoints_values_moderate data :
  Forall (fun x => moderate x = true) (displayValues (toPoints data)).
Proof.
  apply list.Forall_forall. intros x Hx.
  apply list_elem_of_omap in Hx as (p & Hp & Hv).
  apply list_elem_of_omap in Hp as (row & _ & Hrow).
  eapply rowToPoint_value_moderate; eassumption.
Qed.

(* ===================================================================== *)
(** * Part VII: the percentile indices *)
(* ===================================================================== *)

(** The literals [0.1] and [0.9] as binary64 values. *)
Lemma tenth_literal : of_decimal false 1 (-1) = Fin false (3602879701896397 * 2 ^ 1019).
Proof. vm_compute. reflexivity. Qed.

Lemma nine_tenths_literal :
  of_decimal false 9 (-1) = Fin false (8106479329266893 * 2 ^ 1021).
Proof. vm_compute. reflexivity. Qed.

(** The product of a literal [c * 2^e / one] with the integer [k], floored,
    is [q] when the exact product lies between [q] and [q + 15/16]. *)
Lemma floor_mul_literal c e k q :
  0 <= c -> 0 <= e -> 0 <= k -> 0 <= q < 2 ^ 48 ->
  q * one <= c * 2 ^ e * k ->
  16 * (c * 2 ^ e * k) <= (16 * q + 15) * one ->
  Math_floor (mul (Fin false (c * 2 ^ e)) (Fin false (k * one))) = Fin false (q * one).
Proof.
  intros Hc He Hk Hq Hlo Hhi. pose proof one_pos as H1.
  unfold mul, xorb, round.
  replace (c * 2 ^ e * (k * one)) with (c * 2 ^ e * k * one) by ring.
  revert Hlo Hhi. generalize (c * 2 ^ e * k). intros x Hlo Hhi.
  set (R := rnd (x * one) one).
  assert (HL : q * one <= R).
  { rewrite one_eq at 1. apply rnd_ge; [lia | lia | lia |]. rewrite <- one_eq. nia. }
  assert (H16 : 16 * 2 ^ 1070 = one).
  { rewrite one_eq. change 16 with (2 ^ 4). rewrite <- Z.pow_add_r by lia. reflexivity. }
  assert (HU : R <= (16 * q + 15) * 2 ^ 1070).
  { apply rnd_le; [lia | lia | lia |]. hide (2 ^ 1070). nia. }
  assert (H53 : 2 ^ 53 <= 2 ^ 1024) by (apply Z.pow_le_mono_r; lia).
  assert (Hov : R < overflow).
  { rewrite overflow_one. hide (2 ^ 1070). hide (2 ^ 1024). nia. }
  rewrite (pack_fin _ _ Hov). unfold Math_floor. f_equal. f_equal.
  symmetry. apply Z.div_unique with (r := R - q * one).
  - hide (2 ^ 1070). clear H53 Hov. nia.
  - ring.
Qed.

(** [floor(0.1 * k)] and [floor(0.9 * k)] in binary64 arithmetic are the
    integer quotients, for every [k] an array can have as a length. *)
Lemma floor_tenth k :
  0 <= k < 2 ^ 32 ->
  Math_floor (mul (of_decimal false 1 (-1)) (Fin false (k * one)))
  = Fin false (k / 10 * one).
Proof.
  intros Hk. rewrite tenth_literal.
  pose proof (Z.div_mod k 10 ltac:(lia)) as Hdm.
  pose proof (Z.mod_pos_bound k 10 ltac:(lia)) as Hr.
  assert (E1 : one = 2 ^ 55 * 2 ^ 1019)
    by (rewrite one_eq, <- Z.pow_add_r by lia; reflexivity).
  assert (HP : 0 < 2 ^ 1019) by (apply Z.pow_pos_nonneg; lia).
  assert (H1 : k / 10 * 2 ^ 55 <= 3602879701896397 * k) by lia.
  assert (H2 : 16 * (3602879701896397 * k) <= (16 * (k / 10) + 15) * 2 ^ 55) by lia.
  apply floor_mul_literal; try lia; rewrite E1; hide (2 ^ 1019); nia.
Qed.

Lemma floor_nine_tenths k :
  0 <= k < 2 ^ 32 ->
  Math_floor (mul (of_decimal false 9 (-1)) (Fin false (k * one)))
  = Fin false (9 * k / 10 * one).
Proof.
  intros Hk. rewrite nine_tenths_literal.
  pose proof (Z.div_mod (9 * k) 10 ltac:(lia)) as Hdm.
  pose proof (Z.mod_pos_bound (9 * k) 10 ltac:(lia)) as Hr.
  assert (E1 : one = 2 ^ 53 * 2 ^ 1021)
    by (rewrite one_eq, <- Z.pow_add_r by lia; reflexivity).
  assert (HP : 0 < 2 ^ 1021) by (apply Z.pow_pos_nonneg; lia).
  assert (H1 : 9 * k / 10 * 2 ^ 53 <= 8106479329266893 * k) by lia.
  assert (H2 : 16 * (8106479329266893 * k) <= (16 * (9 * k / 10) + 15) * 2 ^ 53) by lia.
  apply floor_mul_literal; try lia; rewrite E1; hide (2 ^ 1021); nia.
Qed.

(** [sorted.length - 1] *)
Lemma length_minus_one n :
  1 <= n < 2 ^ 53 -> sub (of_Z n) (of_Z 1) = Fin false ((n - 1) * one).
Proof.
  intros Hn. rewrite of_Z_1, (of_Z_small n) by lia.
  unfold sub, neg, add, negb, sval. pose proof one_pos.
  replace (n * one + - one) with ((n - 1) * one) by lia.
  destruct (Z.eqb_spec ((n - 1) * one) 0) as [-> | Hne]; [reflexivity|].
  destruct (Z.ltb_spec ((n - 1) * one) 0); [nia|].
  rewrite Z.abs_eq by lia.
  rewrite <- (of_Z_small (n - 1)) by lia.
  unfold of_Z. destruct (Z.ltb_spec (n - 1) 0); [lia|].
  rewrite Z.abs_eq by lia. reflexivity.
Qed.

Lemma array_get_integer {A} (xs : list A) q :
  0 <= q -> array_get xs (Fin false (q * one)) = nth_error xs (Z.to_nat q).
Proof.
  intros Hq. pose proof one_pos. unfold array_get, array_index.
  rewrite Z.mod_mul, Z.div_mul by lia. reflexivity.
Qed.

(** What [pick] returns for the two percentiles. *)
Lemma pick_tenth sorted :
  (1 <= length sorted)%nat -> Z.of_nat (length sorted) < 2 ^ 32 ->
  pick sorted (of_decimal false 1 (-1))
  = nth_error sorted ((length sorted - 1) / 10)%nat.
Proof.
  intros H1 H2. unfold pick.
  rewrite length_minus_one by lia.
  rewrite floor_tenth by lia.
  rewrite array_get_integer by (apply Z.div_pos; lia).
  f_equal. rewrite Z2Nat.inj_div, Z2Nat.inj_sub, Nat2Z.id by lia. reflexivity.
Qed.

Lemma pick_nine_tenths sorted :
  (1 <= length sorted)%nat -> Z.of_nat (length sorted) < 2 ^ 32 ->
  pick sorted (of_decimal false 9 (-1))
  = nth_error sorted (9 * (length sorted - 1) / 10)%nat.
Proof.
  intros H1 H2. unfold pick.
  rewrite length_minus_one by lia.
  rewrite floor_nine_tenths by lia.
  rewrite array_get_integer by (apply Z.div_pos; lia).
  f_equal. rewrite Z2Nat.inj_div, Z2Nat.inj_mul, Z2Nat.inj_sub, Nat2Z.id by lia.
  reflexivity.
Qed.

(* ===================================================================== *)
(** * Part VIII: the properties of the pipeline *)
(* ===================================================================== *)

(** ** The colour-scale range *)

Lemma priceRange_of_values rows :
  Forall (fun x => isFinite x = true) (displayValues rows) ->
  Z.of_nat (length (displayValues rows)) < 2 ^ 32 ->
  displayValues rows <> [] ->
  exists sorted,
    Permutation sorted (displayValues rows)
    /\ Sorted (fun a b => leb a b = true) sorted
    /\ priceRange rows =
         Some {| PriceRange.min := nth_error sorted ((length sorted - 1) / 10)%nat;
                 PriceRange.max := nth_error sorted (9 * (length sorted - 1) / 10)%nat |}.
Proof.
  intros Hfin Hlen Hne. unfold priceRange. fold (displayValues rows).
  destruct (displayValues rows) as [|v vs] eqn:Hv; [congruence|].
  set (sorted := JS.sort byDifference (v :: vs)).
  assert (Hl : length sorted = length (v :: vs)) by apply sort_length.
  exists sorted. split; [apply sort_perm|].
  split; [apply sort_byDifference_sorted; assumption|].
  rewrite pick_tenth, pick_nine_tenths by (rewrite Hl; simpl in *; lia).
  reflexivity.
Qed.

(** C1.  The display prices of the parsed points, when there are any, are
    sorted in ascending order, and the range is the element at index
    [floor(0.1 * (n - 1))] and the one at index [floor(0.9 * (n - 1))] of the
    sorted list, the floors being the integer quotients [(n - 1) / 10] and
    [9 * (n - 1) / 10]; both exist.  With no display price the range is
    [null].  The bound on [n] is the largest length an array can have. *)
Theorem priceRange_percentiles (data : list FuelRow) :
  let values := displayValues (toPoints data) in
  let n := length values in
  Z.of_nat n < 2 ^ 32 ->
  (values = [] -> priceRange (toPoints data) = None)
  /\ (values <> [] ->
      exists sorted lo hi,
        Permutation sorted values
        /\ Sorted (fun a b => leb a b = true) sorted
        /\ nth_error sorted ((n - 1) / 10)%nat = Some lo
        /\ nth_error sorted (9 * (n - 1) / 10)%nat = Some hi
        /\ priceRange (toPoints data)
           = Some {| PriceRange.min := Some lo; PriceRange.max := Some hi |}).
Proof.
  intros values n Hn. split.
  - intros Hv. unfold priceRange. fold (displayValues (toPoints data)).
    fold values. rewrite Hv. reflexivity.
  - intros Hne.
    assert (Hfin : Forall (fun x => isFinite x = true) values).
    { eapply Forall_impl; [apply toPoints_values_moderate|].
      intros x. apply moderate_finite. }
    destruct (priceRange_of_values _ Hfin Hn Hne) as (sorted & Hperm & Hsorted & Hrange).
    assert (Hl : length sorted = n) by (apply Permutation_length, Hperm).
    assert (Hpos : (0 < n)%nat).
    { subst n. destruct values; [congruence | simpl; lia]. }
    rewrite Hl in Hrange.
    destruct (nth_error sorted ((n - 1) / 10)%nat) as [lo|] eqn:Hlo.
    2:{ apply nth_error_None in Hlo.
        pose proof (Nat.Div0.div_le_upper_bound (n - 1) 10 (n - 1)%nat ltac:(lia)). lia. }
    destruct (nth_error sorted (9 * (n - 1) / 10)%nat) as [hi|] eqn:Hhi.
    2:{ apply nth_error_None in Hhi.
        pose proof (Nat.Div0.div_le_upper_bound (9 * (n - 1)) 10 (n - 1)%nat ltac:(lia)).
        lia. }
    exists sorted, lo, hi. repeat split; assumption.
Qed.

(** A sample of three stations, one of them without a price. *)
Definition sampleRows : list FuelRow :=
  [ {[ "forecourts.node_id" := "a1";
       "forecourts.location.latitude" := "51.5";
       "forecourts.location.longitude" := "-0.12";
       "forecourts.fuel_price.E10" := "'145.9";
       "forecourts.fuel_price.B7S" := "152.9" ]};
    {[ "forecourts.location.latitude" := "53.4";
       "forecourts.location.longitude" := "-2.2";
       "forecourts.fuel_price.E5" := "151.7" ]};
    {[ "forecourts.location.latitude" := "55.9";
       "forecourts.location.longitude" := "-3.2" ]} ]%string.

Lemma priceRange_percentiles_witness :
  let values := displayValues (toPoints sampleRows) in
  let n := length values in
  Z.of_nat n < 2 ^ 32
  /\ (values = [] -> priceRange (toPoints sampleRows) = None)
  /\ (values <> [] ->
      exists sorted lo hi,
        Permutation sorted values
        /\ Sorted (fun a b => leb a b = true) sorted
        /\ nth_error sorted ((n - 1) / 10)%nat = Some lo
        /\ nth_error sorted (9 * (n - 1) / 10)%nat = Some hi
        /\ priceRange (toPoints sampleRows)
           = Some {| PriceRange.min := Some lo; PriceRange.max := Some hi |}).
Proof.
  intros values n.
  assert (H : Z.of_nat n < 2 ^ 32) by (vm_compute; reflexivity).
  exact (conj H (priceRange_percentiles sampleRows H)).
Defined.

(** ** Rows and points *)

Definition latitudeKey : string := "forecourts.location.latitude".
Definition longitudeKey : string := "forecourts.location.longitude".

(** The cell of a column, empty when the row lacks it: [row[key] ?? '']. *)
Definition cell (row : FuelRow) (key : string) : string := default "" (row !! key).

Definition setsError (a : action) : bool :=
  match a with SetParseError _ => true | _ => false end.

Lemma parseFloat_empty : parseFloat "" = NaN.
Proof. vm_compute. reflexivity. Qed.

Lemma rowToPoint_Some row p :
  rowToPoint row = Some p ->
  toNumber (cell row latitudeKey) = Some (FuelPoint.lat p)
  /\ toNumber (cell row longitudeKey) = Some (FuelPoint.lng p).
Proof.
  unfold rowToPoint, cell, latitudeKey, longitudeKey.
  destruct (toNumber _) as [lat|]; [|discriminate].
  destruct (toNumber _) as [lng|]; [|discriminate].
  intros Hp. apply (inj Some) in Hp. subst p. split; reflexivity.
Qed.

Lemma toNumber_Some value x :
  toNumber value = Some x <-> x = parseFloat value /\ isFinite (parseFloat value) = true.
Proof.
  unfold toNumber. destruct (isFinite (parseFloat value)).
  - split; [intros H; apply (inj Some) in H; auto | intros [-> _]; reflexivity].
  - split; [discriminate | intros [_ H]; discriminate].
Qed.

Lemma rowToPoint_is_Some row :
  is_Some (rowToPoint row)
  <-> isFinite (parseFloat (cell row latitudeKey)) = true
      /\ isFinite (parseFloat (cell row longitudeKey)) = true.
Proof.
  split.
  - intros [p Hp]. apply rowToPoint_Some in Hp as [H1 H2].
    apply toNumber_Some in H1 as [_ H1]. apply toNumber_Some in H2 as [_ H2]. auto.
  - intros [H1 H2]. unfold rowToPoint. fold latitudeKey longitudeKey.
    fold (cell row latitudeKey) (cell row longitudeKey).
    unfold toNumber. rewrite H1, H2. eexists. reflexivity.
Qed.

(** C2.  A row yields a point exactly when its latitude and its longitude
    cell both parse to a finite number, and the point carries the two parsed
    numbers; a row that lacks one of the columns yields none.  A row that
    yields no point leaves the list of points as it is, and the error
    messages [complete] sets are those of the parser's own error list,
    whatever the rows are.  So every point has a finite latitude and
    longitude. *)
Theorem rows_without_coordinates_are_skipped (row : FuelRow) (results : ParseResult) :
  (is_Some (rowToPoint row)
   <-> isFinite (parseFloat (cell row latitudeKey)) = true
       /\ isFinite (parseFloat (cell row longitudeKey)) = true)
  /\ (row !! latitudeKey = None \/ row !! longitudeKey = None -> rowToPoint row = None)
  /\ (rowToPoint row = None ->
      toPoints (row :: data results) = toPoints (data results)
      /\ complete {| data := row :: data results; errors := errors results |}
         = complete results)
  /\ (forall p, rowToPoint row = Some p ->
      toPoints (row :: data results) = p :: toPoints (data results)
      /\ FuelPoint.lat p = parseFloat (cell row latitudeKey)
      /\ FuelPoint.lng p = parseFloat (cell row longitudeKey))
  /\ filter setsError (complete results)
     = filter setsError (complete {| data := []; errors := errors results |})
  /\ Forall (fun p => isFinite (FuelPoint.lat p) = true
                      /\ isFinite (FuelPoint.lng p) = true)
       (toPoints (data results)).
Proof.
  split; [apply rowToPoint_is_Some|].
  split.
  { intros Hmiss.
    destruct (rowToPoint row) as [p|] eqn:Hp; [exfalso | reflexivity].
    assert (Hs : is_Some (rowToPoint row)) by (rewrite Hp; eexists; reflexivity).
    apply rowToPoint_is_Some in Hs as [H1 H2].
    unfold cell in H1, H2.
    destruct Hmiss as [Hm | Hm]; rewrite Hm in *; simpl in *;
      try rewrite parseFloat_empty in *; discriminate. }
  split.
  { intros Hnone. unfold complete, toPoints. simpl. rewrite Hnone. auto. }
  split.
  { intros p Hp. unfold toPoints. simpl. rewrite Hp. split; [reflexivity|].
    apply rowToPoint_Some in Hp as [H1 H2].
    apply toNumber_Some in H1 as [H1 _]. apply toNumber_Some in H2 as [H2 _]. auto. }
  split.
  { unfold complete. simpl. rewrite !filter_app. reflexivity. }
  apply list.Forall_forall. intros p Hp.
  apply list_elem_of_omap in Hp as (r & _ & Hr).
  apply rowToPoint_Some in Hr as [H1 H2].
  apply toNumber_Some in H1 as [-> H1]. apply toNumber_Some in H2 as [-> H2]. auto.
Qed.

(** ** The test for files that are no CSV *)

(** C5.  A text whose left-trimmed form has no comma, or starts with
    [<!DOCTYPE] or with [<html], makes [reader.onload] set one error message
    and an empty list of points and never reach the parser; on any other
    text it calls the parser on the text and goes on with what the parser
    reports. *)
Theorem onload_rejects_what_is_no_csv (parse : string -> ParseOutcome) (text : string) :
  let trimmed := trimStart text in
  let rejected :=
    negb (includes "," trimmed)
    || startsWith "<!DOCTYPE" trimmed || startsWith "<html" trimmed in
  (rejected = true ->
     onload parse text = [SetParseError notCsvMessage; SetRows []]
     /\ length (filter setsError (onload parse text)) = 1%nat
     /\ (forall t, ~ In (PapaParse t) (onload parse text))
     /\ (forall st, rows (run st (onload parse text)) = []
                    /\ parseError (run st (onload parse text)) = notCsvMessage))
  /\ (rejected = false ->
     onload parse text
     = PapaParse text ::
       match parse text with
       | Complete results => complete results
       | Failed error => [SetParseError (message error)]
       end).
Proof.
  intros trimmed rejected.
  assert (Hr : looksWrong text = rejected) by reflexivity.
  unfold onload. rewrite Hr. split; intros ->.
  - split; [reflexivity|]. split; [reflexivity|]. split.
    + intros t [H | [H | []]]; discriminate.
    + intros st. split; reflexivity.
  - reflexivity.
Qed.

(** ** Objects and their truthy cells *)

(** [obj[key]] is falsy: the key is unbound, or bound to the empty string. *)
Definition unset (obj : gmap string string) (key : string) : Prop :=
  obj !! key = None \/ obj !! key = Some ""%string.

Lemma truthy_at_Some obj key value :
  truthy_at obj key = Some value <-> obj !! key = Some value /\ value <> ""%string.
Proof.
  unfold truthy_at. destruct (obj !! key) as [[|a v]|]; simpl.
  - split; [discriminate | intros [[= <-] H]; congruence].
  - split; [intros [= <-]; split; [reflexivity | discriminate] | intros [[= <-] _]; reflexivity].
  - split; [discriminate | intros [H _]; discriminate].
Qed.

Lemma truthy_at_None obj key : truthy_at obj key = None <-> unset obj key.
Proof.
  unfold truthy_at, unset. destruct (obj !! key) as [[|a v]|]; simpl.
  - split; auto.
  - split; [discriminate | intros [H | H]; discriminate].
  - split; auto.
Qed.

(** ** The fields of a point *)

Definition nodeIdKey : string := "forecourts.node_id".

Lemma rowToPoint_fields row p :
  rowToPoint row = Some p ->
  FuelPoint.prices p = collectPrices priceKeys row ∅
  /\ FuelPoint.hasPrices p = bool_decide (0 < size (FuelPoint.prices p))%nat
  /\ FuelPoint.displayPrice p
     = (if FuelPoint.hasPrices p then getDisplayPrice (FuelPoint.prices p) else None)
  /\ FuelPoint.displayPriceValue p
     = (if FuelPoint.hasPrices p then getDisplayPriceValue (FuelPoint.prices p) else None)
  /\ FuelPoint.id p
     = or_else row nodeIdKey
         (toString (FuelPoint.lat p) +:+ "," +:+ toString (FuelPoint.lng p))
  /\ FuelPoint.tradingName p = or_else row "forecourts.trading_name" "Unknown site".
Proof.
  unfold rowToPoint.
  destruct (toNumber _) as [lat|]; [|discriminate].
  destruct (toNumber _) as [lng|]; [|discriminate].
  intros Hp. apply (inj Some) in Hp. subst p. cbn [FuelPoint.prices FuelPoint.hasPrices
    FuelPoint.displayPrice FuelPoint.displayPriceValue FuelPoint.id FuelPoint.lat
    FuelPoint.lng FuelPoint.tradingName].
  repeat apply conj; reflexivity.
Qed.

(** The first two sample rows yield points. *)
Lemma sampleRow0_point : is_Some (rowToPoint (sampleRows !!! 0%nat)).
Proof. apply rowToPoint_is_Some. split; vm_compute; reflexivity. Qed.

Lemma sampleRow1_point : is_Some (rowToPoint (sampleRows !!! 1%nat)).
Proof. apply rowToPoint_is_Some. split; vm_compute; reflexivity. Qed.

(** ** The prices record *)

Lemma collectPrices_empty keys row : forall acc,
  collectPrices keys row acc = ∅
  <-> acc = ∅ /\ forall key, In key keys -> truthy_at row key = None.
Proof.
  induction keys as [|key rest IH]; intros acc; simpl.
  - split; [intros ->; split; [reflexivity | intros ? []] | intros [-> _]; reflexivity].
  - destruct (truthy_at row key) as [value|] eqn:Hk.
    + rewrite IH. split.
      * intros [H _]. exfalso. exact (insert_non_empty _ _ _ H).
      * intros [_ H]. specialize (H key (or_introl eq_refl)). congruence.
    + rewrite IH. split.
      * intros [-> H]. split; [reflexivity|]. intros k [<- | Hin]; auto.
      * intros [-> H]. split; [reflexivity|]. intros k Hin. apply H. right. exact Hin.
Qed.

Lemma collectPrices_lookup keys row : forall acc k v,
  collectPrices keys row acc !! k = Some v ->
  acc !! k = Some v
  \/ exists key value,
       In key keys /\ shortKey key = k /\ truthy_at row key = Some value
       /\ v = normalizePrice value.
Proof.
  induction keys as [|key rest IH]; intros acc k v; simpl; [auto|].
  destruct (truthy_at row key) as [value|] eqn:Hk; intros H; apply IH in H.
  - destruct H as [H | (key' & value' & Hin & Hs & Ht & Hv)].
    + apply lookup_insert_Some in H as [[<- <-] | [_ H]]; [right | left; exact H].
      exists key, value. auto.
    + right. exists key', value'. auto.
  - destruct H as [H | (key' & value' & Hin & Hs & Ht & Hv)]; [left; exact H|].
    right. exists key', value'. auto.
Qed.

(** [n] apostrophes. *)
Fixpoint apostrophes (n : nat) : string :=
  match n with O => "" | S n' => String "'" (apostrophes n') end.

Lemma normalizePrice_spec value :
  (exists n, value = apostrophes n +:+ normalizePrice value)
  /\ startsWith "'" (normalizePrice value) = false.
Proof.
  induction value as [|a rest [[n Hn] Hs]].
  - split; [exists O; reflexivity | reflexivity].
  - cbn [normalizePrice]. destruct (Ascii.eqb a "'") eqn:E.
    + split; [|exact Hs]. apply Ascii.eqb_eq in E. subst a.
      exists (S n). rewrite Hn at 1. reflexivity.
    + split; [exists O; reflexivity|].
      cbn [startsWith]. rewrite Ascii.eqb_sym, E. reflexivity.
Qed.

Lemma shortKey_priceKeys key key' :
  In key priceKeys -> In key' priceKeys -> shortKey key = shortKey key' -> key = key'.
Proof.
  unfold priceKeys. simpl.
  intros [<- | [<- | [<- | [<- | [<- | [<- | []]]]]]]
         [<- | [<- | [<- | [<- | [<- | [<- | []]]]]]];
    vm_compute; intros H; first [reflexivity | discriminate H].
Qed.

(** C6.  [hasPrices] holds exactly when one of the six price columns of the
    row holds a non-empty cell, and without it both derived prices are
    [null]. *)
Theorem hasPrices_iff_some_price_cell (row : FuelRow) (p : FuelPoint.t) :
  rowToPoint row = Some p ->
  (FuelPoint.hasPrices p = true
   <-> exists key value, In key priceKeys /\ row !! key = Some value /\ value <> ""%string)
  /\ (FuelPoint.hasPrices p = false ->
      FuelPoint.displayPrice p = None /\ FuelPoint.displayPriceValue p = None).
Proof.
  intros Hp. apply rowToPoint_fields in Hp as (Hprices & Hhas & Hdp & Hdv & _ & _).
  split.
  - rewrite Hhas, bool_decide_eq_true, Hprices.
    assert (Hsz : forall m : gmap string string, (0 < size m)%nat <-> m <> ∅).
    { intros m. rewrite <- map_size_non_empty_iff. lia. }
    rewrite Hsz, collectPrices_empty. split.
    + intros Hne.
      destruct (List.Exists_dec (fun key => truthy_at row key <> None) priceKeys) as [He | Hn].
      { intros key. destruct (truthy_at row key); [left; discriminate | right; auto]. }
      * apply List.Exists_exists in He as (key & Hin & Hk).
        destruct (truthy_at row key) as [value|] eqn:Ht; [|congruence].
        apply truthy_at_Some in Ht as [H1 H2]. exists key, value. auto.
      * exfalso. apply Hne. split; [reflexivity|].
        intros key Hin. destruct (truthy_at row key) eqn:Ht; [|reflexivity].
        exfalso. apply Hn, List.Exists_exists. exists key. split; [exact Hin | congruence].
    + intros (key & value & Hin & Hk & Hv) [_ Hall].
      specialize (Hall key Hin).
      assert (Ht : truthy_at row key = Some value) by (apply truthy_at_Some; auto).
      congruence.
  - intros Hf. rewrite Hdp, Hdv, Hf. auto.
Qed.

Lemma hasPrices_iff_some_price_cell_witness :
  exists p,
    rowToPoint (sampleRows !!! 0%nat) = Some p
    /\ (FuelPoint.hasPrices p = true
        <-> exists key value,
              In key priceKeys /\ (sampleRows !!! 0%nat) !! key = Some value
              /\ value <> ""%string)
    /\ (FuelPoint.hasPrices p = false ->
        FuelPoint.displayPrice p = None /\ FuelPoint.displayPriceValue p = None).
Proof.
  destruct sampleRow0_point as [p Hp]. exists p. split; [exact Hp|].
  exact (hasPrices_iff_some_price_cell (sampleRows !!! 0%nat) p Hp).
Defined.

(** C9 as stated fails: a cell that holds nothing but apostrophes is not
    empty, so it passes the test [if (value)], and what is stored for it is
    the empty string. *)
Definition apostropheRow : FuelRow :=
  {[ "forecourts.location.latitude" := "51.5";
     "forecourts.location.longitude" := "-0.12";
     "forecourts.fuel_price.E5" := "'" ]}%string.

Lemma stored_price_can_be_empty :
  (FuelPoint.prices <$> rowToPoint apostropheRow) = Some {[ "E5" := "" ]}%string
  /\ apostropheRow !! "forecourts.fuel_price.E5"%string = Some "'"%string.
Proof. split; vm_compute; reflexivity. Qed.

(** C9, amended.  Every value stored in a point's prices record comes from
    one of the six price columns, under the column's last name component; it
    is the column's cell, which is not empty, without the apostrophes the
    cell starts with and otherwise unchanged, so it does not start with an
    apostrophe.  (It is empty when the cell holds apostrophes only.) *)
Theorem stored_prices_are_normalized_cells
    (row : FuelRow) (p : FuelPoint.t) (k v : string) :
  rowToPoint row = Some p ->
  FuelPoint.prices p !! k = Some v ->
  exists key value n,
    In key priceKeys /\ shortKey key = k
    /\ (forall key', In key' priceKeys -> shortKey key' = k -> key' = key)
    /\ row !! key = Some value /\ value <> ""%string
    /\ v = normalizePrice value
    /\ value = apostrophes n +:+ v
    /\ startsWith "'" v = false.
Proof.
  intros Hp Hk. apply rowToPoint_fields in Hp as (Hprices & _).
  rewrite Hprices in Hk. apply collectPrices_lookup in Hk as [Hk | Hk].
  - rewrite lookup_empty in Hk. discriminate.
  - destruct Hk as (key & value & Hin & Hs & Ht & ->).
    apply truthy_at_Some in Ht as [Hrow Hne].
    destruct (normalizePrice_spec value) as [[n Hn] Hst].
    exists key, value, n. repeat split; try assumption.
    intros key' Hin' Hs'. apply shortKey_priceKeys; congruence.
Qed.

Lemma stored_prices_are_normalized_cells_witness :
  exists p key value n,
    rowToPoint (sampleRows !!! 0%nat) = Some p
    /\ FuelPoint.prices p !! "E10"%string = Some "145.9"%string
    /\ In key priceKeys /\ shortKey key = "E10"%string
    /\ (forall key', In key' priceKeys -> shortKey key' = "E10"%string -> key' = key)
    /\ (sampleRows !!! 0%nat) !! key = Some value /\ value <> ""%string
    /\ "145.9"%string = normalizePrice value
    /\ value = apostrophes n +:+ "145.9"
    /\ startsWith "'" "145.9" = false.
Proof.
  destruct sampleRow0_point as [p Hp].
  assert (Hk : FuelPoint.prices p !! "E10"%string = Some "145.9"%string).
  { rewrite (proj1 (rowToPoint_fields _ _ Hp)). vm_compute. reflexivity. }
  destruct (stored_prices_are_normalized_cells _ p "E10" "145.9" Hp Hk)
    as (key & value & n & H).
  exists p, key, value, n. split; [exact Hp|]. split; [exact Hk|]. exact H.
Defined.

(** ** Identifiers *)

Lemma or_else_spec row key fallback :
  (forall value, row !! key = Some value -> value <> ""%string ->
                 or_else row key fallback = value)
  /\ (unset row key -> or_else row key fallback = fallback).
Proof.
  unfold or_else. split.
  - intros value H1 H2.
    assert (Ht : truthy_at row key = Some value) by (apply truthy_at_Some; auto).
    rewrite Ht. reflexivity.
  - intros Hu. apply truthy_at_None in Hu. rewrite Hu. reflexivity.
Qed.

Lemma append_comma_nonempty (a b : string) : a +:+ "," +:+ b <> ""%string.
Proof. destruct a; discriminate. Qed.

(** The identifier of a point whose row has no node id. *)
Lemma id_without_node_id row p :
  rowToPoint row = Some p -> unset row nodeIdKey ->
  FuelPoint.id p
  = toString (parseFloat (cell row latitudeKey)) +:+ ","
    +:+ toString (parseFloat (cell row longitudeKey)).
Proof.
  intros Hp Hu. pose proof (rowToPoint_fields _ _ Hp) as (_ & _ & _ & _ & Hid & _).
  rewrite Hid, (proj2 (or_else_spec _ _ _) Hu).
  apply rowToPoint_Some in Hp as [H1 H2].
  apply toNumber_Some in H1 as [-> _]. apply toNumber_Some in H2 as [-> _].
  reflexivity.
Qed.

(** The second sample row under another trading name. *)
Definition renamedRow : FuelRow :=
  <["forecourts.trading_name" := "South"]> (sampleRows !!! 1%nat).

(** Two different rows with one identifier: they lack a node id and have
    the same coordinates. *)
Lemma ids_can_coincide :
  exists row1 row2 p1 p2,
    rowToPoint row1 = Some p1 /\ rowToPoint row2 = Some p2
    /\ p1 <> p2 /\ FuelPoint.id p1 = FuelPoint.id p2.
Proof.
  assert (Hlat : cell renamedRow latitudeKey = cell (sampleRows !!! 1%nat) latitudeKey)
    by (vm_compute; reflexivity).
  assert (Hlng : cell renamedRow longitudeKey = cell (sampleRows !!! 1%nat) longitudeKey)
    by (vm_compute; reflexivity).
  pose proof sampleRow1_point as H1.
  assert (H2 : is_Some (rowToPoint renamedRow)).
  { apply rowToPoint_is_Some. rewrite Hlat, Hlng.
    apply rowToPoint_is_Some. exact H1. }
  destruct H1 as [p1 Hp1]. destruct H2 as [p2 Hp2].
  exists (sampleRows !!! 1%nat), renamedRow, p1, p2.
  split; [exact Hp1|]. split; [exact Hp2|]. split.
  - intros E.
    pose proof (rowToPoint_fields _ _ Hp1) as (_ & _ & _ & _ & _ & T1).
    pose proof (rowToPoint_fields _ _ Hp2) as (_ & _ & _ & _ & _ & T2).
    rewrite E in T1. rewrite T1 in T2. vm_compute in T2. discriminate T2.
  - rewrite (id_without_node_id _ _ Hp1) by (left; vm_compute; reflexivity).
    rewrite (id_without_node_id _ _ Hp2) by (left; vm_compute; reflexivity).
    rewrite Hlat, Hlng. reflexivity.
Qed.

(** C10.  The identifier of a point is the row's node id when that is not
    empty, and otherwise the latitude, a comma and the longitude, each as
    [String] prints the parsed number.  It is never empty.  Two rows without
    a node id whose parsed coordinates are the same get the same identifier,
    and there are such rows that differ. *)
Theorem point_id (row : FuelRow) (p : FuelPoint.t) :
  rowToPoint row = Some p ->
  (forall nodeId, row !! nodeIdKey = Some nodeId -> nodeId <> ""%string ->
                  FuelPoint.id p = nodeId)
  /\ (unset row nodeIdKey ->
      FuelPoint.id p
      = toString (FuelPoint.lat p) +:+ "," +:+ toString (FuelPoint.lng p)
      /\ FuelPoint.lat p = parseFloat (cell row latitudeKey)
      /\ FuelPoint.lng p = parseFloat (cell row longitudeKey))
  /\ FuelPoint.id p <> ""%string
  /\ (forall row' p',
        rowToPoint row' = Some p' -> unset row nodeIdKey -> unset row' nodeIdKey ->
        FuelPoint.lat p' = FuelPoint.lat p -> FuelPoint.lng p' = FuelPoint.lng p ->
        FuelPoint.id p' = FuelPoint.id p)
  /\ (exists row1 row2 p1 p2,
        rowToPoint row1 = Some p1 /\ rowToPoint row2 = Some p2
        /\ p1 <> p2 /\ FuelPoint.id p1 = FuelPoint.id p2).
Proof.
  intros Hp. pose proof (rowToPoint_fields _ _ Hp) as (_ & _ & _ & _ & Hid & _).
  pose proof (or_else_spec row nodeIdKey
                (toString (FuelPoint.lat p) +:+ "," +:+ toString (FuelPoint.lng p)))
    as [Hset Hunset].
  rewrite <- Hid in Hset, Hunset.
  split; [exact Hset|]. split.
  { intros Hu. split; [exact (Hunset Hu)|].
    apply rowToPoint_Some in Hp as [H1 H2].
    apply toNumber_Some in H1 as [H1 _]. apply toNumber_Some in H2 as [H2 _]. auto. }
  split.
  { destruct (truthy_at row nodeIdKey) as [nodeId|] eqn:Ht.
    - apply truthy_at_Some in Ht as [H1 H2]. rewrite (Hset nodeId H1 H2). exact H2.
    - apply truthy_at_None in Ht. rewrite (Hunset Ht). apply append_comma_nonempty. }
  split; [|exact ids_can_coincide].
  intros row' p' Hp' Hu Hu' Hlat Hlng.
  pose proof (rowToPoint_fields _ _ Hp') as (_ & _ & _ & _ & Hid' & _).
  pose proof (or_else_spec row' nodeIdKey
                (toString (FuelPoint.lat p') +:+ "," +:+ toString (FuelPoint.lng p')))
    as [_ Hunset'].
  rewrite <- Hid' in Hunset'.
  rewrite (Hunset Hu), (Hunset' Hu'), Hlat, Hlng. reflexivity.
Qed.

Lemma point_id_witness :
  exists p,
    rowToPoint (sampleRows !!! 1%nat) = Some p
    /\ unset (sampleRows !!! 1%nat) nodeIdKey
    /\ FuelPoint.id p
       = toString (FuelPoint.lat p) +:+ "," +:+ toString (FuelPoint.lng p)
    /\ FuelPoint.id p <> ""%string.
Proof.
  destruct sampleRow1_point as [p Hp].
  assert (Hu : unset (sampleRows !!! 1%nat) nodeIdKey) by (left; vm_compute; reflexivity).
  pose proof (point_id _ p Hp) as (_ & Hunset & Hne & _).
  exists p. split; [exact Hp|]. split; [exact Hu|].
  split; [exact (proj1 (Hunset Hu)) | exact Hne].
Defined.

(** ** The display price *)

Lemma getDisplayPrice_from_first before key after prices value :
  (forall k, In k before -> truthy_at prices k = None) ->
  truthy_at prices key = Some value ->
  getDisplayPrice_from (before ++ key :: after) prices = Some (formatPriceLabel value)
  /\ getDisplayPriceValue_from (before ++ key :: after) prices = toPounds value.
Proof.
  intros Hbefore Hkey. induction before as [|k before IH]; simpl.
  - rewrite Hkey. auto.
  - rewrite (Hbefore k (or_introl eq_refl)). apply IH.
    intros k' Hin. apply Hbefore. right. exact Hin.
Qed.

Lemma getDisplayPrice_from_none keys prices :
  (forall k, In k keys -> truthy_at prices k = None) ->
  getDisplayPrice_from keys prices = None
  /\ getDisplayPriceValue_from keys prices = None.
Proof.
  intros Hkeys. induction keys as [|k keys IH]; simpl; [auto|].
  rewrite (Hkeys k (or_introl eq_refl)). apply IH.
  intros k' Hin. apply Hkeys. right. exact Hin.
Qed.

Lemma getDisplayPrice_from_ext keys prices prices' :
  (forall k, In k keys -> prices' !! k = prices !! k) ->
  getDisplayPrice_from keys prices' = getDisplayPrice_from keys prices
  /\ getDisplayPriceValue_from keys prices' = getDisplayPriceValue_from keys prices.
Proof.
  intros Hkeys. induction keys as [|k keys IH]; simpl; [auto|].
  unfold truthy_at at 1 3. rewrite (Hkeys k (or_introl eq_refl)).
  fold (truthy_at prices k).
  destruct (truthy_at prices k); [auto|]. apply IH.
  intros k' Hin. apply Hkeys. right. exact Hin.
Qed.

(** C4.  Both functions visit the fuel types in the order E10, E5, B7S, B7P,
    B10, HVO and answer from the first one bound to a non-empty string: the
    label of that string, and its value in pounds.  They answer [null] when
    none of the six is, and what they answer depends on the six bindings
    only. *)
Theorem display_price_of_first_preferred (prices : gmap string string) :
  preferred = [ "E10"; "E5"; "B7S"; "B7P"; "B10"; "HVO" ]%string
  /\ (forall before key after value,
        preferred = before ++ key :: after ->
        (forall k, In k before -> unset prices k) ->
        prices !! key = Some value -> value <> ""%string ->
        getDisplayPrice prices = Some (formatPriceLabel value)
        /\ getDisplayPriceValue prices = toPounds value)
  /\ ((forall k, In k preferred -> unset prices k) ->
      getDisplayPrice prices = None /\ getDisplayPriceValue prices = None)
  /\ (forall prices' : gmap string string,
        (forall k, In k preferred -> prices' !! k = prices !! k) ->
        getDisplayPrice prices' = getDisplayPrice prices
        /\ getDisplayPriceValue prices' = getDisplayPriceValue prices).
Proof.
  split; [reflexivity|]. split.
  { intros before key after value Hpref Hbefore Hkey Hne.
    unfold getDisplayPrice, getDisplayPriceValue. rewrite Hpref.
    apply getDisplayPrice_from_first.
    - intros k Hin. apply truthy_at_None, Hbefore, Hin.
    - apply truthy_at_Some. auto. }
  split.
  { intros Hall. apply getDisplayPrice_from_none.
    intros k Hin. apply truthy_at_None, Hall, Hin. }
  intros prices' Hsame. apply getDisplayPrice_from_ext. exact Hsame.
Qed.

(** C8.  When the first preferred fuel type bound to a non-empty string is
    bound to one that does not parse to a finite number, the value is [null]
    and the label is that very string: the later fuel types are not looked
    at, and a label does not imply a value. *)
Theorem unparseable_first_price
    (prices : gmap string string) (before after : list string) (key value : string) :
  preferred = before ++ key :: after ->
  (forall k, In k before -> unset prices k) ->
  prices !! key = Some value -> value <> ""%string ->
  isFinite (parseFloat value) = false ->
  getDisplayPriceValue prices = None
  /\ getDisplayPrice prices = Some value
  /\ forall later : gmap string string,
       (forall k, In k (before ++ [key]) -> later !! k = prices !! k) ->
       getDisplayPriceValue later = None /\ getDisplayPrice later = Some value.
Proof.
  intros Hpref Hbefore Hkey Hne Hnan.
  assert (Hgen : forall m : gmap string string,
             (forall k, In k (before ++ [key]) -> m !! k = prices !! k) ->
             getDisplayPriceValue m = None /\ getDisplayPrice m = Some value).
  { intros m Hm.
    unfold getDisplayPrice, getDisplayPriceValue. rewrite Hpref.
    destruct (getDisplayPrice_from_first before key after m value) as [H1 H2].
    - intros k Hin. apply truthy_at_None. unfold unset.
      rewrite Hm by (apply in_or_app; left; exact Hin). apply Hbefore, Hin.
    - apply truthy_at_Some. split; [|exact Hne].
      rewrite Hm by (apply in_or_app; right; left; reflexivity). exact Hkey.
    - rewrite H1, H2. unfold toPounds, formatPriceLabel. rewrite Hnan. auto. }
  destruct (Hgen prices ltac:(auto)) as [H1 H2]. auto.
Qed.

(** E10 holds a text and E5 a price: the price is not used. *)
Definition textFirst : gmap string string :=
  {[ "E10" := "N/A"; "E5" := "150.9" ]}%string.

Lemma unparseable_first_price_witness :
  (getDisplayPriceValue textFirst = None
   /\ getDisplayPrice textFirst = Some "N/A"%string
   /\ forall later : gmap string string,
        (forall k, In k ([] ++ ["E10"%string]) -> later !! k = textFirst !! k) ->
        getDisplayPriceValue later = None /\ getDisplayPrice later = Some "N/A"%string)
  /\ textFirst !! "E5"%string = Some "150.9"%string
  /\ isFinite (parseFloat "150.9") = true.
Proof.
  split; [|split; vm_compute; reflexivity].
  apply (unparseable_first_price textFirst [] [ "E5"; "B7S"; "B7P"; "B10"; "HVO" ]%string
           "E10" "N/A").
  - reflexivity.
  - intros k [].
  - vm_compute. reflexivity.
  - discriminate.
  - vm_compute. reflexivity.
Defined.

(** ** The colour of a price *)

(** The difference of two finite numbers that is far from overflow. *)
Lemma sub_fin s1 m1 s2 m2 :
  let z := sval s1 m1 - sval s2 m2 in
  Z.abs z <= 2 * moderateLimit ->
  sub (Fin s1 m1) (Fin s2 m2)
  = Fin (if z =? 0 then s1 && negb s2 else z <? 0) (rnd (Z.abs z) 1).
Proof.
  intros z Hz. unfold sub, neg, add.
  replace (sval s1 m1 + sval (negb s2) m2) with z
    by (unfold z; destruct s2; simpl; lia).
  destruct (Z.eqb_spec z 0) as [-> | Hne].
  - rewrite rnd_0 by lia. reflexivity.
  - unfold round. apply pack_fin.
    pose proof (rnd_diff_bound (Z.abs z) ltac:(lia)).
    pose proof double_moderateLimit_lt_overflow. lia.
Qed.

(** Clamping a quotient to the interval from 0 to 1. *)
Lemma clamp_pack s Q :
  0 <= Q ->
  Math_min (of_Z 1) (Math_max (of_Z 0) (pack s Q))
  = Fin false (if s then 0 else Z.min one Q).
Proof.
  intros HQ. rewrite of_Z_0, of_Z_1.
  pose proof one_pos. pose proof one_lt_overflow.
  unfold pack. destruct (Z.ltb_spec Q overflow); destruct s;
    unfold Math_max, Math_min, ltb, leb, signbit, sval; simpl;
    repeat match goal with
           | |- context [?a <=? ?b] => destruct (Z.leb_spec a b); simpl
           end;
    try lia; f_equal; lia.
Qed.

(** [t] and the hue in units, from the signed units of the three numbers. *)
Definition tUnits (v mn mx : Z) : Z :=
  Z.min one (rnd (rnd (Z.max 0 (v - mn)) 1 * one) (rnd (mx - mn) 1)).

Definition hueUnits (v mn mx : Z) : Z :=
  rnd (120 * one - rnd (120 * one * tUnits v mn mx) one) 1.

Lemma rnd_120 : rnd (120 * one) 1 = 120 * one.
Proof. rewrite one_eq. apply rnd_exact; lia. Qed.

Lemma rnd_120_scaled t : 0 <= t <= one -> 0 <= rnd (120 * one * t) one <= 120 * one.
Proof.
  intros Ht. pose proof one_pos. split; [apply rnd_nonneg; nia|].
  rewrite one_eq at 3. apply rnd_le; try lia. rewrite <- one_eq. nia.
Qed.

Lemma range_positive mn mx : mn < mx -> 1 <= rnd (mx - mn) 1.
Proof. intros H. apply rnd_pos. lia. Qed.

Lemma tUnits_range v mn mx : mn < mx -> 0 <= tUnits v mn mx <= one.
Proof.
  intros H. pose proof one_pos. pose proof (range_positive mn mx H).
  unfold tUnits. split; [|lia].
  apply Z.min_glb; [lia|]. apply rnd_nonneg; [lia|].
  pose proof (rnd_nonneg (Z.max 0 (v - mn)) 1 ltac:(lia) ltac:(lia)). nia.
Qed.

Lemma tUnits_low v mn mx : mn < mx -> v <= mn -> tUnits v mn mx = 0.
Proof.
  intros H Hv. pose proof one_pos. pose proof (range_positive mn mx H).
  unfold tUnits.
  assert (E : rnd (Z.max 0 (v - mn)) 1 = 0)
    by (rewrite Z.max_l by lia; apply rnd_0; lia).
  rewrite E, Z.mul_0_l, rnd_0 by lia. lia.
Qed.

Lemma tUnits_high v mn mx : mn < mx -> mx <= v -> tUnits v mn mx = one.
Proof.
  intros H Hv. pose proof one_pos. pose proof (range_positive mn mx H).
  unfold tUnits. apply Z.min_l.
  rewrite one_eq at 1. replace (2 ^ 1074) with (1 * 2 ^ 1074) by lia.
  apply rnd_ge; try lia. rewrite Z.mul_1_l, <- one_eq.
  assert (rnd (mx - mn) 1 <= rnd (Z.max 0 (v - mn)) 1) by (apply rnd_mono; lia).
  nia.
Qed.


Lemma hueUnits_range v mn mx : mn < mx -> 0 <= hueUnits v mn mx <= 120 * one.
Proof.
  intros H. pose proof one_pos.
  pose proof (rnd_120_scaled _ (tUnits_range v mn mx H)).
  unfold hueUnits. split; [apply rnd_nonneg; lia|].
  apply Z.le_trans with (rnd (120 * one) 1); [apply rnd_mono; lia|].
  rewrite rnd_120. lia.
Qed.

Lemma hueUnits_low v mn mx : mn < mx -> v <= mn -> hueUnits v mn mx = 120 * one.
Proof.
  intros H Hv. pose proof one_pos. unfold hueUnits.
  rewrite tUnits_low by assumption.
  rewrite Z.mul_0_r, rnd_0, Z.sub_0_r by lia. apply rnd_120.
Qed.

Lemma hueUnits_high v mn mx : mn < mx -> mx <= v -> hueUnits v mn mx = 0.
Proof.
  intros H Hv. pose proof one_pos. unfold hueUnits.
  rewrite tUnits_high by assumption.
  assert (E : rnd (120 * one * one) one = 120 * one).
  { apply Z.le_antisymm.
    - rewrite one_eq at 4. apply rnd_le; try lia. rewrite <- one_eq. lia.
    - rewrite one_eq at 1. apply rnd_ge; try lia. rewrite <- one_eq. lia. }
  rewrite E, Z.sub_diag. apply rnd_0. lia.
Qed.


Lemma signed_moderate x : moderate x = true -> Z.abs (signed x) <= moderateLimit.
Proof.
  intros H. apply moderate_inv in H as (s & m & -> & Hm).
  destruct s; simpl; lia.
Qed.

Lemma sub_signed x y :
  isFinite x = true -> isFinite y = true ->
  Z.abs (signed x - signed y) <= 2 * moderateLimit ->
  exists s,
    sub x y = Fin s (rnd (Z.abs (signed x - signed y)) 1)
    /\ (0 < signed x - signed y -> s = false)
    /\ (signed x - signed y < 0 -> s = true).
Proof.
  destruct x as [| |s1 m1]; try discriminate. destruct y as [| |s2 m2]; try discriminate.
  intros _ _ Hz. simpl in Hz. eexists. split; [apply sub_fin; exact Hz|].
  simpl. split; intros H.
  - destruct (Z.eqb_spec (sval s1 m1 - sval s2 m2) 0); [lia|].
    destruct (Z.ltb_spec (sval s1 m1 - sval s2 m2) 0); [lia | reflexivity].
  - destruct (Z.eqb_spec (sval s1 m1 - sval s2 m2) 0); [lia|].
    destruct (Z.ltb_spec (sval s1 m1 - sval s2 m2) 0); [reflexivity | lia].
Qed.

(** [t] and the hue of moderate numbers, in units. *)
Lemma priceT_units value min max :
  moderate value = true -> moderate min = true -> moderate max = true ->
  signed min < signed max ->
  priceT value min max = Fin false (tUnits (signed value) (signed min) (signed max)).
Proof.
  intros Hv Hmn Hmx Hlt.
  pose proof (signed_moderate _ Hv) as Bv.
  pose proof (signed_moderate _ Hmn) as Bmn.
  pose proof (signed_moderate _ Hmx) as Bmx.
  apply moderate_finite in Hv, Hmn, Hmx.
  pose proof one_pos as H1.
  destruct (sub_signed value min Hv Hmn ltac:(lia)) as (s1 & E1 & Hpos & Hneg).
  destruct (sub_signed max min Hmx Hmn ltac:(lia)) as (s2 & E2 & Hpos2 & _).
  rewrite (Hpos2 ltac:(lia)) in E2. rewrite Z.abs_eq in E2 by lia.
  pose proof (range_positive _ _ Hlt) as HD.
  unfold priceT, tUnits. rewrite E1, E2.
  set (z := signed value - signed min) in *.
  set (D := rnd (signed max - signed min) 1) in *.
  unfold div. destruct (Z.eqb_spec D 0); [lia|].
  rewrite xorb_false_r. unfold round.
  pose proof (rnd_nonneg (Z.abs z) 1 ltac:(lia) ltac:(lia)) as Ha.
  rewrite clamp_pack by (apply rnd_nonneg; nia).
  f_equal.
  destruct (Z.lt_trichotomy z 0) as [Hz | [Hz | Hz]].
  - rewrite (Hneg Hz). rewrite Z.max_l by lia.
    rewrite (rnd_0 1) by lia. rewrite Z.mul_0_l, rnd_0 by lia. lia.
  - rewrite Hz. change (Z.abs 0) with 0. rewrite Z.max_l by lia.
    rewrite (rnd_0 1) by lia. rewrite Z.mul_0_l, rnd_0 by lia. destruct s1; lia.
  - rewrite (Hpos Hz). rewrite Z.abs_eq, Z.max_r by lia. reflexivity.
Qed.

Lemma of_Z_120 : of_Z 120 = Fin false (120 * one).
Proof. apply of_Z_small. lia. Qed.

Lemma priceHue_units value min max :
  moderate value = true -> moderate min = true -> moderate max = true ->
  signed min < signed max ->
  priceHue value min max
  = Fin false (hueUnits (signed value) (signed min) (signed max)).
Proof.
  intros Hv Hmn Hmx Hlt. unfold priceHue, hueUnits.
  rewrite (priceT_units _ _ _ Hv Hmn Hmx Hlt), of_Z_120.
  pose proof (tUnits_range (signed value) _ _ Hlt) as Ht.
  set (t := tUnits _ _ _) in *.
  pose proof (rnd_120_scaled t Ht) as HP.
  pose proof one_pos as H1. pose proof one_lt_overflow as Ho.
  assert (H120 : 120 * one <= 2 * moderateLimit)
    by (pose proof moderateLimit_one; lia).
  unfold mul, xorb, round.
  rewrite pack_fin by (pose proof double_moderateLimit_lt_overflow; lia).
  set (P := rnd (120 * one * t) one) in *.
  rewrite sub_fin; unfold sval.
  2:{ rewrite Z.abs_eq by lia. lia. }
  rewrite Z.abs_eq by lia.
  destruct (Z.eqb_spec (120 * one - P) 0); [reflexivity|].
  destruct (Z.ltb_spec (120 * one - P) 0); [lia | reflexivity].
Qed.

Lemma ltb_signed x y :
  isFinite x = true -> isFinite y = true -> ltb x y = (signed x <? signed y).
Proof.
  destruct x as [| |s1 m1]; try discriminate. destruct y as [| |s2 m2]; try discriminate.
  intros _ _. unfold ltb, leb. simpl. lia.
Qed.

Lemma leb_signed x y :
  isFinite x = true -> isFinite y = true -> leb x y = (signed x <=? signed y).
Proof.
  destruct x as [| |s1 m1]; try discriminate. destruct y as [| |s2 m2]; try discriminate.
  intros _ _. reflexivity.
Qed.








(** ** Formatted prices *)

Fixpoint all_digits (s : string) : bool :=
  match s with
  | EmptyString => true
  | String a s' => is_digit a && all_digits s'
  end.

(** A decimal numeral with exactly [f] digits after the point: an optional
    minus sign, at least one digit, the point, [f] digits. *)
Definition hasDecimals (f : nat) (s : string) : Prop :=
  exists sign whole frac,
    s = sign +:+ whole +:+ "." +:+ frac
    /\ (sign = ""%string \/ sign = "-"%string)
    /\ whole <> ""%string
    /\ all_digits whole = true
    /\ all_digits frac = true
    /\ String.length frac = f.

Lemma length_append (a b : string) :
  String.length (a +:+ b) = (String.length a + String.length b)%nat.
Proof. induction a as [|c a IH]; simpl; [reflexivity | rewrite IH; reflexivity]. Qed.

Lemma length_zeros n : String.length (zeros n) = n.
Proof. induction n as [|n IH]; simpl; [reflexivity | rewrite IH; reflexivity]. Qed.

Lemma length_take n : forall s, String.length (take n s) = Nat.min n (String.length s).
Proof.
  induction n as [|n IH]; intros [|c s]; simpl; try reflexivity.
  rewrite IH. reflexivity.
Qed.

Lemma length_drop n : forall s, String.length (drop n s) = (String.length s - n)%nat.
Proof.
  induction n as [|n IH]; intros [|c s]; simpl; try reflexivity. apply IH.
Qed.

Lemma all_digits_append a b :
  all_digits a = true -> all_digits b = true -> all_digits (a +:+ b) = true.
Proof.
  intros Ha Hb. induction a as [|c a IH]; simpl in *; [exact Hb|].
  apply andb_true_iff in Ha as [Hc Ha]. rewrite Hc. simpl. apply IH, Ha.
Qed.

Lemma all_digits_zeros n : all_digits (zeros n) = true.
Proof. induction n as [|n IH]; simpl; [reflexivity | exact IH]. Qed.

Lemma all_digits_take n : forall s, all_digits s = true -> all_digits (take n s) = true.
Proof.
  induction n as [|n IH]; intros [|c s]; simpl; try reflexivity.
  intros H. apply andb_true_iff in H as [Hc Hs]. rewrite Hc. simpl. apply IH, Hs.
Qed.

Lemma all_digits_drop n : forall s, all_digits s = true -> all_digits (drop n s) = true.
Proof.
  induction n as [|n IH]; intros [|c s]; simpl; try (intros; assumption).
  intros H. apply andb_true_iff in H as [_ Hs]. apply IH, Hs.
Qed.

Lemma all_digits_digits_of n : all_digits (digits_of n) = true.
Proof.
  unfold digits_of, NilZero.string_of_uint.
  assert (H : forall d, all_digits (NilEmpty.string_of_uint d) = true)
    by (induction d; simpl; auto).
  destruct (N.to_uint (Z.to_N n)); simpl; try apply H. reflexivity.
Qed.

(** [fixed_digits] puts the point before exactly [f] digits. *)
Lemma fixed_digits_shape n f :
  (0 < f)%nat ->
  exists whole frac,
    fixed_digits n f = whole +:+ "." +:+ frac
    /\ whole <> ""%string
    /\ all_digits whole = true /\ all_digits frac = true
    /\ String.length frac = f.
Proof.
  intros Hf. destruct f as [|f']; [lia|]. unfold fixed_digits.
  set (ds := digits_of n).
  set (padded := zeros (S (S f') - String.length ds) +:+ ds).
  assert (Hlen : (S (S f') <= String.length padded)%nat).
  { unfold padded. rewrite length_append, length_zeros. lia. }
  assert (Hdig : all_digits padded = true).
  { apply all_digits_append; [apply all_digits_zeros | apply all_digits_digits_of]. }
  set (cut := (String.length padded - S f')%nat).
  exists (take cut padded), (drop cut padded).
  split; [reflexivity|]. split.
  { intros E. apply (f_equal String.length) in E.
    rewrite length_take in E. simpl in E. lia. }
  split; [apply all_digits_take, Hdig|].
  split; [apply all_digits_drop, Hdig|].
  rewrite length_drop. lia.
Qed.

(** [fixed_units m f] is the integer nearest to [m / one * 10^f], the larger
    of two. *)
Lemma fixed_units_nearest m f :
  2 * fixed_units m f * one <= 2 * m * 10 ^ Z.of_nat f + one
                            < 2 * (fixed_units m f + 1) * one.
Proof.
  pose proof one_pos. unfold fixed_units.
  pose proof (Z.div_mod (2 * m * 10 ^ Z.of_nat f + one) (2 * one) ltac:(lia)).
  pose proof (Z.mod_pos_bound (2 * m * 10 ^ Z.of_nat f + one) (2 * one) ltac:(lia)).
  lia.
Qed.

Lemma toFixed_below_limit s m f :
  (0 < f)%nat -> m < fixed_limit ->
  toFixed (Fin s m) f
  = (if s && (0 <? m) then "-" else "") +:+ fixed_digits (fixed_units m f) f
  /\ hasDecimals f (toFixed (Fin s m) f).
Proof.
  intros Hf Hm. unfold toFixed.
  destruct (Z.leb_spec fixed_limit m); [lia|].
  split; [reflexivity|].
  destruct (fixed_digits_shape (fixed_units m f) f Hf)
    as (whole & frac & E & Hw & Hdw & Hdf & Hl).
  exists (if s && (0 <? m) then "-"%string else ""%string), whole, frac.
  rewrite E. split; [reflexivity|].
  split; [destruct (s && (0 <? m)); auto|]. auto.
Qed.

Lemma toFixed_from_limit s m f :
  fixed_limit <= m ->
  toFixed (Fin s m) f = (if s then "-" else "") +:+ toString (Fin false m).
Proof.
  intros Hm. unfold toFixed.
  destruct (Z.leb_spec fixed_limit m); [|lia].
  assert (0 < fixed_limit).
  { rewrite fixed_limit_eq. pose proof one_pos.
    assert (0 < 10 ^ 21) by (apply Z.pow_pos_nonneg; lia). nia. }
  destruct (Z.ltb_spec 0 m); [|lia]. rewrite andb_true_r. reflexivity.
Qed.

(** The units of [1e22], the hundredth of the price [1e24]. *)
Definition hugePounds : Z :=
  Eval vm_compute in
    match div (parseFloat "1e24") (of_Z 100) with Fin _ m => m | _ => 0 end.

Lemma hugePounds_spec :
  isFinite (parseFloat "1e24") = true
  /\ div (parseFloat "1e24") (of_Z 100) = Fin false hugePounds
  /\ fixed_limit <= hugePounds
  /\ toString (Fin false hugePounds) = "1e+22"%string.
Proof.
  repeat apply conj; [vm_compute; reflexivity | vm_compute; reflexivity
                     | vm_compute; discriminate | vm_compute; reflexivity].
Qed.

(** C3 as stated fails: a price of [1e24] parses to a finite number, and
    the hundredth of it is printed in exponent notation, with no decimal
    place at all. *)
Lemma huge_price_has_no_decimals :
  isFinite (parseFloat "1e24") = true
  /\ formatPriceLabel "1e24" = "£1e+22"%string
  /\ formatPriceValue "1e24" = "£1e+22"%string.
Proof.
  destruct hugePounds_spec as (Hfin & Hdiv & Hlim & Hstr).
  split; [exact Hfin|].
  unfold formatPriceLabel, formatPriceValue. rewrite Hfin. cbn [negb].
  cbv zeta. rewrite Hdiv, !toFixed_from_limit, Hstr by exact Hlim. split; reflexivity.
Qed.

(** C3, amended.  For a price string whose parse is finite, the marker
    label is the pound sign followed by [toFixed(2)] of the hundredth of
    the parsed number, and the popup text the same with [toFixed(3)].  When
    the hundredth is below [10^21] in magnitude these have exactly two and
    three digits after the point, and are the digits of the nearest number
    of hundredths and of thousandths; from [10^21] on [toFixed] prints as
    [String] does. *)
Theorem price_formats (value : string) (s : bool) (m : Z) :
  isFinite (parseFloat value) = true ->
  div (parseFloat value) (of_Z 100) = Fin s m ->
  let pounds := div (parseFloat value) (of_Z 100) in
  let sign := if s && (0 <? m) then "-"%string else ""%string in
  formatPriceLabel value = "£" +:+ toFixed pounds 2
  /\ formatPriceValue value = "£" +:+ toFixed pounds 3
  /\ (m < fixed_limit ->
      hasDecimals 2 (toFixed pounds 2)
      /\ hasDecimals 3 (toFixed pounds 3)
      /\ toFixed pounds 2 = sign +:+ fixed_digits (fixed_units m 2) 2
      /\ toFixed pounds 3 = sign +:+ fixed_digits (fixed_units m 3) 3
      /\ 2 * fixed_units m 2 * one <= 2 * m * 100 + one < 2 * (fixed_units m 2 + 1) * one
      /\ 2 * fixed_units m 3 * one <= 2 * m * 1000 + one < 2 * (fixed_units m 3 + 1) * one)
  /\ (fixed_limit <= m ->
      toFixed pounds 2 = toString pounds /\ toFixed pounds 3 = toString pounds).
Proof.
  intros Hfin Hdiv pounds sign.
  split; [unfold formatPriceLabel; rewrite Hfin; reflexivity|].
  split; [unfold formatPriceValue; rewrite Hfin; reflexivity|].
  subst pounds. rewrite Hdiv. split.
  - intros Hm.
    destruct (toFixed_below_limit s m 2 ltac:(lia) Hm) as [E2 D2].
    destruct (toFixed_below_limit s m 3 ltac:(lia) Hm) as [E3 D3].
    repeat apply conj; try assumption.
    + apply (fixed_units_nearest m 2).
    + apply (fixed_units_nearest m 2).
    + apply (fixed_units_nearest m 3).
    + apply (fixed_units_nearest m 3).
  - intros Hm. rewrite !toFixed_from_limit by assumption.
    assert (0 < fixed_limit).
    { rewrite fixed_limit_eq. pose proof one_pos.
      assert (0 < 10 ^ 21) by (apply Z.pow_pos_nonneg; lia). nia. }
    unfold toString. destruct (Z.eqb_spec m 0); [lia|].
    destruct s; auto.
Qed.

(** The units of 1.459, the hundredth of the price 145.9. *)
Definition samplePounds : Z :=
  Eval vm_compute in
    match div (parseFloat "145.9") (of_Z 100) with Fin _ m => m | _ => 0 end.

Lemma price_formats_witness :
  formatPriceLabel "145.9" = "£1.46"%string
  /\ formatPriceValue "145.9" = "£1.459"%string
  /\ hasDecimals 2 (toFixed (div (parseFloat "145.9") (of_Z 100)) 2)
  /\ hasDecimals 3 (toFixed (div (parseFloat "145.9") (of_Z 100)) 3).
Proof.
  assert (Hf : isFinite (parseFloat "145.9") = true) by (vm_compute; reflexivity).
  assert (Hdiv : div (parseFloat "145.9") (of_Z 100) = Fin false samplePounds)
    by (vm_compute; reflexivity).
  assert (Hm : samplePounds < fixed_limit) by (vm_compute; reflexivity).
  destruct (price_formats "145.9" false samplePounds Hf Hdiv)
    as (Hlabel & Hvalue & Hlow & _).
  destruct (Hlow Hm) as (D2 & D3 & _).
  rewrite Hlabel, Hvalue. rewrite Hdiv in *.
  split; [vm_compute; reflexivity|]. split; [vm_compute; reflexivity|].
  split; assumption.
Defined.

(* ===================================================================== *)
(** * Part IX: the rest of the component *)
(* ===================================================================== *)

(** ** The statistics line *)

Module Stats.
Record t : Type := mk { count : nat; brands : nat }.
End Stats.

(** The memo [stats]: the number of points and of distinct brands, [null]
    without points. *)
Definition stats (rows : list FuelPoint.t) : option Stats.t :=
  match rows with
  | [] => None
  | _ :: _ =>
      let uniqueBrands := size (list_to_set (map FuelPoint.brand rows) : gset string) in
      Some {| Stats.count := length rows; Stats.brands := uniqueBrands |}
  end.

Lemma size_list_to_set_le (l : list string) :
  (size (list_to_set l : gset string) <= length l)%nat.
Proof.
  induction l as [|x l IH].
  - rewrite list_to_set_nil, size_empty. cbn [length]. lia.
  - rewrite list_to_set_cons, size_union_alt, size_singleton. cbn [length].
    pose proof (subseteq_size (list_to_set l ∖ {[x]} : gset string) (list_to_set l)
                  ltac:(apply subseteq_difference_l; reflexivity)).
    lia.
Qed.

Lemma toPoints_length data : (length (toPoints data) <= length data)%nat.
Proof.
  unfold toPoints. induction data as [|row data IH]; [reflexivity|].
  change (omap rowToPoint (row :: data))
    with (match rowToPoint row with
          | Some p => p :: omap rowToPoint data
          | None => omap rowToPoint data
          end).
  destruct (rowToPoint row); cbn [length]; lia.
Qed.

(** X1.  The statistics are [null] exactly when there is no point.  Otherwise
    the count is the number of points, which is at most the number of rows
    parsed, and the number of brands is at least one and at most the count;
    it is the number of distinct brand names, rows without a brand counting
    under the one name ["Unknown brand"]. *)
Theorem stats_counts (data : list FuelRow) :
  (stats (toPoints data) = None <-> toPoints data = [])
  /\ forall s, stats (toPoints data) = Some s ->
       Stats.count s = length (toPoints data)
       /\ (Stats.count s <= length data)%nat
       /\ (1 <= Stats.brands s <= Stats.count s)%nat
       /\ (forall b, (exists p, In p (toPoints data) /\ FuelPoint.brand p = b)
                     <-> b ∈ (list_to_set (map FuelPoint.brand (toPoints data)) : gset string))
       /\ Stats.brands s
          = size (list_to_set (map FuelPoint.brand (toPoints data)) : gset string)
       /\ forall row p, In row data -> rowToPoint row = Some p ->
            unset row "forecourts.brand_name" -> FuelPoint.brand p = "Unknown brand"%string.
Proof.
  split.
  { unfold stats. destruct (toPoints data); split; intros H; congruence. }
  intros s Hs. unfold stats in Hs.
  destruct (toPoints data) as [|p ps] eqn:Hpts; [discriminate|].
  apply (inj Some) in Hs. subst s. cbn [Stats.count Stats.brands].
  split; [reflexivity|].
  split; [rewrite <- Hpts; apply toPoints_length|].
  split.
  { split.
    - cbn [map]. rewrite list_to_set_cons, size_union_alt, size_singleton. lia.
    - pose proof (size_list_to_set_le (map FuelPoint.brand (p :: ps))) as H.
      rewrite length_map in H. exact H. }
  split.
  { intros b. rewrite elem_of_list_to_set, list_elem_of_fmap. split.
    - intros (q & Hin & Hb). exists q. split; [auto|]. apply list_elem_of_In. exact Hin.
    - intros (q & Hb & Hin). exists q. split; [apply list_elem_of_In; exact Hin | auto]. }
  split; [reflexivity|].
  intros row q _ Hq Hu. unfold rowToPoint in Hq.
  destruct (toNumber _); [|discriminate]. destruct (toNumber _); [|discriminate].
  apply (inj Some) in Hq. subst q. cbn [FuelPoint.brand].
  apply or_else_spec. exact Hu.
Qed.

(** ** What [handleFile] leaves behind *)


(** ** Label and value of the display price *)

(** The two loops stop at the same key. *)
Lemma display_pair keys prices :
  (getDisplayPrice_from keys prices = None
   /\ getDisplayPriceValue_from keys prices = None
   /\ forall k, In k keys -> truthy_at prices k = None)
  \/ exists key value,
       In key keys /\ truthy_at prices key = Some value
       /\ getDisplayPrice_from keys prices = Some (formatPriceLabel value)
       /\ getDisplayPriceValue_from keys prices = toPounds value.
Proof.
  induction keys as [|k keys IH]; simpl.
  - left. repeat split. intros k [].
  - destruct (truthy_at prices k) as [value|] eqn:Hk.
    + right. exists k, value. auto.
    + destruct IH as [(H1 & H2 & H3) | (key & value & Hin & Ht & H1 & H2)].
      * left. repeat split; try assumption. intros k' [<- | Hin]; auto.
      * right. exists key, value. auto.
Qed.

Lemma label_of_value value :
  (forall x, toPounds value = Some x -> formatPriceLabel value = "£" +:+ toFixed x 2)
  /\ (toPounds value = None ->
      formatPriceLabel value = value /\ isFinite (parseFloat value) = false).
Proof.
  unfold toPounds, formatPriceLabel.
  destruct (isFinite (parseFloat value)); cbn [negb]; split.
  - intros x Hx. apply (inj Some) in Hx. subst x. reflexivity.
  - discriminate.
  - discriminate.
  - auto.
Qed.

Lemma shortKey_preferred key : In key priceKeys -> In (shortKey key) preferred.
Proof.
  unfold priceKeys. simpl.
  intros [<- | [<- | [<- | [<- | [<- | [<- | []]]]]]]; vm_compute; tauto.
Qed.

Lemma stored_key_preferred row p k v :
  rowToPoint row = Some p -> FuelPoint.prices p !! k = Some v -> In k preferred.
Proof.
  intros Hp Hk. rewrite (proj1 (rowToPoint_fields _ _ Hp)) in Hk.
  apply collectPrices_lookup in Hk as [Hk | (key & value & Hin & <- & _)].
  - rewrite lookup_empty in Hk. discriminate.
  - apply shortKey_preferred. exact Hin.
Qed.

Lemma hasPrices_of_lookup row p k v :
  rowToPoint row = Some p -> FuelPoint.prices p !! k = Some v ->
  FuelPoint.hasPrices p = true.
Proof.
  intros Hp Hk. pose proof (rowToPoint_fields _ _ Hp) as (_ & Hhas & _).
  rewrite Hhas. apply bool_decide_eq_true.
  destruct (size (FuelPoint.prices p)) eqn:Hsz; [|lia].
  apply map_size_empty_iff in Hsz. rewrite Hsz, lookup_empty in Hk. discriminate.
Qed.

(** X3.  When a point has a numeric display price, its label is the pound sign
    and that number with two decimals, and the number is finite, of
    magnitude at most [2^1022].  When it has a label and no numeric price,
    the label is a stored price, not empty, that does not parse to a finite
    number.  Without a label it has no numeric price. *)
Theorem label_and_value_agree (row : FuelRow) (p : FuelPoint.t) :
  rowToPoint row = Some p ->
  (forall x, FuelPoint.displayPriceValue p = Some x ->
             FuelPoint.displayPrice p = Some ("£" +:+ toFixed x 2)
             /\ moderate x = true)
  /\ (forall label, FuelPoint.displayPriceValue p = None ->
                    FuelPoint.displayPrice p = Some label ->
                    (exists k, In k preferred /\ FuelPoint.prices p !! k = Some label)
                    /\ label <> ""%string
                    /\ isFinite (parseFloat label) = false)
  /\ (FuelPoint.displayPrice p = None -> FuelPoint.displayPriceValue p = None).
Proof.
  intros Hp. pose proof (rowToPoint_fields _ _ Hp) as (_ & _ & Hdp & Hdv & _).
  rewrite Hdp, Hdv. unfold getDisplayPrice, getDisplayPriceValue.
  destruct (FuelPoint.hasPrices p).
  2:{ repeat split; try discriminate. }
  destruct (display_pair preferred (FuelPoint.prices p))
    as [(H1 & H2 & _) | (key & value & Hin & Ht & H1 & H2)]; rewrite H1, H2.
  - repeat split; try discriminate.
  - destruct (label_of_value value) as [Hsome Hnone].
    apply truthy_at_Some in Ht as [Hk Hne].
    split; [|split; [|discriminate]].
    + intros x Hx. rewrite (Hsome x Hx). split; [reflexivity|].
      eapply toPounds_moderate. exact Hx.
    + intros label Hx Hl. destruct (Hnone Hx) as [Hraw Hnan].
      rewrite Hraw in Hl. apply (inj Some) in Hl. subst label.
      split; [exists key; auto | auto].
Qed.

Lemma label_and_value_agree_witness :
  exists p,
    rowToPoint (sampleRows !!! 0%nat) = Some p
    /\ (forall x, FuelPoint.displayPriceValue p = Some x ->
                  FuelPoint.displayPrice p = Some ("£" +:+ toFixed x 2)
                  /\ moderate x = true)
    /\ (FuelPoint.displayPrice p = None -> FuelPoint.displayPriceValue p = None).
Proof.
  destruct sampleRow0_point as [p Hp]. exists p. split; [exact Hp|].
  pose proof (label_and_value_agree _ p Hp) as (H1 & _ & H3). split; assumption.
Defined.

(** X4.  Every key of a point's prices record is one of the six fuel types the
    display price is looked up under, so a point has a label exactly when
    its record holds a non-empty price. *)
Theorem label_iff_stored_price (row : FuelRow) (p : FuelPoint.t) :
  rowToPoint row = Some p ->
  (forall k v, FuelPoint.prices p !! k = Some v -> In k preferred)
  /\ (is_Some (FuelPoint.displayPrice p)
      <-> exists k v, FuelPoint.prices p !! k = Some v /\ v <> ""%string).
Proof.
  intros Hp. split; [intros k v; apply (stored_key_preferred row p k v Hp)|].
  pose proof (rowToPoint_fields _ _ Hp) as (_ & _ & Hdp & _).
  split.
  - intros [label Hl]. rewrite Hdp in Hl.
    destruct (FuelPoint.hasPrices p); [|discriminate].
    unfold getDisplayPrice in Hl.
    destruct (display_pair preferred (FuelPoint.prices p))
      as [(H1 & _) | (key & value & _ & Ht & _)]; [congruence|].
    apply truthy_at_Some in Ht as [Hk Hne]. exists key, value. auto.
  - intros (k & v & Hk & Hne).
    rewrite Hdp, (hasPrices_of_lookup row p k v Hp Hk). unfold getDisplayPrice.
    destruct (display_pair preferred (FuelPoint.prices p))
      as [(_ & _ & Hall) | (key & value & _ & _ & H1 & _)].
    + specialize (Hall k (stored_key_preferred row p k v Hp Hk)).
      assert (Ht : truthy_at (FuelPoint.prices p) k = Some v)
        by (apply truthy_at_Some; auto).
      congruence.
    + rewrite H1. eexists. reflexivity.
Qed.

Lemma label_iff_stored_price_witness :
  exists p,
    rowToPoint (sampleRows !!! 0%nat) = Some p
    /\ (forall k v, FuelPoint.prices p !! k = Some v -> In k preferred)
    /\ (is_Some (FuelPoint.displayPrice p)
        <-> exists k v, FuelPoint.prices p !! k = Some v /\ v <> ""%string).
Proof.
  destruct sampleRow0_point as [p Hp]. exists p. split; [exact Hp|].
  exact (label_iff_stored_price _ p Hp).
Defined.

(** ** [normalizePrice] *)

(** X5.  Normalizing twice is normalizing once; a string that does not start
    with an apostrophe is left as it is; nothing is ever added. *)
Theorem normalizePrice_idempotent (value : string) :
  normalizePrice (normalizePrice value) = normalizePrice value
  /\ (startsWith "'" value = false -> normalizePrice value = value)
  /\ (String.length (normalizePrice value) <= String.length value)%nat.
Proof.
  assert (Hfix : forall v, startsWith "'" v = false -> normalizePrice v = v).
  { intros [|a v]; [reflexivity|]. cbn [startsWith normalizePrice].
    rewrite andb_true_r, Ascii.eqb_sym. intros ->. reflexivity. }
  split; [apply Hfix, normalizePrice_spec|]. split; [apply Hfix|].
  induction value as [|a rest IH]; [reflexivity|].
  cbn [normalizePrice]. destruct (Ascii.eqb a "'"); cbn [String.length]; lia.
Qed.

(** ** The text fields of a point *)

Definition addressKeys : list string :=
  [ "forecourts.location.address_line_1";
    "forecourts.location.address_line_2";
    "forecourts.location.city";
    "forecourts.location.county" ]%string.

Lemma rowToPoint_text_fields row p :
  rowToPoint row = Some p ->
  FuelPoint.tradingName p = or_else row "forecourts.trading_name" "Unknown site"
  /\ FuelPoint.brand p = or_else row "forecourts.brand_name" "Unknown brand"
  /\ FuelPoint.address p = join ", " (omap (truthy_at row) addressKeys)
  /\ FuelPoint.postcode p = or_else row "forecourts.location.postcode" ""
  /\ FuelPoint.updated p = or_else row "latest_update_timestamp" "".
Proof.
  unfold rowToPoint.
  destruct (toNumber _) as [lat|]; [|discriminate].
  destruct (toNumber _) as [lng|]; [|discriminate].
  intros Hp. apply (inj Some) in Hp. subst p.
  cbn [FuelPoint.tradingName FuelPoint.brand FuelPoint.address FuelPoint.postcode
       FuelPoint.updated].
  repeat apply conj; reflexivity.
Qed.

Lemma or_else_nonempty row key fallback :
  fallback <> ""%string -> or_else row key fallback <> ""%string.
Proof.
  intros Hf. unfold or_else. destruct (truthy_at row key) as [v|] eqn:Ht; [|exact Hf].
  apply truthy_at_Some in Ht as [_ Hv]. exact Hv.
Qed.

Lemma or_else_empty row key : or_else row key "" = cell row key.
Proof.
  unfold or_else, truthy_at, cell. destruct (row !! key) as [[|a v]|]; reflexivity.
Qed.

Lemma join_nonempty sep parts :
  Forall (fun part => part <> ""%string) parts ->
  (join sep parts = ""%string <-> parts = []).
Proof.
  intros Hall. split; [|intros ->; reflexivity].
  destruct parts as [|[|a part] rest]; [reflexivity | |].
  - inversion Hall; congruence.
  - destruct rest; discriminate.
Qed.

Lemma omap_truthy_nil row keys :
  omap (truthy_at row) keys = [] <-> forall key, In key keys -> unset row key.
Proof.
  induction keys as [|k keys IH].
  - split; [intros _ key [] | reflexivity].
  - change (omap (truthy_at row) (k :: keys))
      with (match truthy_at row k with
            | Some v => v :: omap (truthy_at row) keys
            | None => omap (truthy_at row) keys
            end).
    destruct (truthy_at row k) as [v|] eqn:Ht.
    + split; [discriminate|]. intros Hall.
      specialize (Hall k (or_introl eq_refl)). apply truthy_at_None in Hall. congruence.
    + rewrite IH. apply truthy_at_None in Ht. split.
      * intros Hall key [<- | Hin]; auto.
      * intros Hall key Hin. apply Hall. right. exact Hin.
Qed.

(** X6.  The name and the brand of a point are never empty: a row without one
    gets ["Unknown site"] or ["Unknown brand"], any other row its own cell.
    The postcode and the time of the update are the row's cells, empty for
    a row without the column.  The address is made of the non-empty ones of
    the four address cells, in their order, with a comma and a space between
    two of them; it is empty exactly when the row has none. *)
Theorem point_text_fields (row : FuelRow) (p : FuelPoint.t) :
  rowToPoint row = Some p ->
  FuelPoint.tradingName p <> ""%string
  /\ FuelPoint.brand p <> ""%string
  /\ (unset row "forecourts.trading_name" ->
      FuelPoint.tradingName p = "Unknown site"%string)
  /\ (~ unset row "forecourts.trading_name" ->
      FuelPoint.tradingName p = cell row "forecourts.trading_name")
  /\ (unset row "forecourts.brand_name" ->
      FuelPoint.brand p = "Unknown brand"%string)
  /\ (~ unset row "forecourts.brand_name" ->
      FuelPoint.brand p = cell row "forecourts.brand_name")
  /\ FuelPoint.postcode p = cell row "forecourts.location.postcode"
  /\ FuelPoint.updated p = cell row "latest_update_timestamp"
  /\ FuelPoint.address p
     = join ", " (List.filter truthy (map (cell row) addressKeys))
  /\ (FuelPoint.address p = ""%string
      <-> forall key, In key addressKeys -> unset row key).
Proof.
  intros Hp.
  destruct (rowToPoint_text_fields _ _ Hp) as (Hname & Hbrand & Haddr & Hpost & Hupd).
  assert (Hcell : forall key fallback,
             ~ unset row key -> or_else row key fallback = cell row key).
  { intros key fallback Hset. unfold or_else, cell.
    destruct (truthy_at row key) as [v|] eqn:Ht.
    - apply truthy_at_Some in Ht as [-> _]. reflexivity.
    - apply truthy_at_None in Ht. contradiction. }
  rewrite Hname, Hbrand, Haddr, Hpost, Hupd, !or_else_empty.
  split; [apply or_else_nonempty; discriminate|].
  split; [apply or_else_nonempty; discriminate|].
  split; [apply or_else_spec|]. split; [apply Hcell|].
  split; [apply or_else_spec|]. split; [apply Hcell|].
  split; [reflexivity|]. split; [reflexivity|].
  split.
  - f_equal. generalize addressKeys. intros keys.
    induction keys as [|k keys IH]; [reflexivity|].
    change (omap (truthy_at row) (k :: keys))
      with (match truthy_at row k with
            | Some v => v :: omap (truthy_at row) keys
            | None => omap (truthy_at row) keys
            end).
    cbn [map List.filter]. rewrite IH. unfold truthy_at, cell.
    destruct (row !! k) as [[|a v]|]; reflexivity.
  - rewrite join_nonempty; [apply omap_truthy_nil|].
    apply list.Forall_forall. intros part Hin.
    apply list_elem_of_omap in Hin as (key & _ & Ht).
    apply truthy_at_Some in Ht as [_ Hne]. exact Hne.
Qed.

Lemma point_text_fields_witness :
  exists p,
    rowToPoint (sampleRows !!! 0%nat) = Some p
    /\ FuelPoint.tradingName p = "Unknown site"%string
    /\ FuelPoint.brand p = "Unknown brand"%string
    /\ FuelPoint.postcode p = ""%string
    /\ FuelPoint.address p = ""%string.
Proof.
  destruct sampleRow0_point as [p Hp]. exists p. split; [exact Hp|].
  destruct (point_text_fields _ p Hp)
    as (_ & _ & Hname & _ & Hbrand & _ & Hpost & _ & _ & Haddr).
  split; [apply Hname; left; vm_compute; reflexivity|].
  split; [apply Hbrand; left; vm_compute; reflexivity|].
  split; [rewrite Hpost; vm_compute; reflexivity|].
  apply Haddr. intros key Hin. left.
  destruct Hin as [<- | [<- | [<- | [<- | []]]]]; vm_compute; reflexivity.
Defined.

(** ** The range and the prices it is taken from *)

(** The sorted display prices ascend, also between elements that are not
    neighbours. *)
Lemma sort_byDifference_ascending (values : list number) :
  Forall (fun x => isFinite x = true) values ->
  StronglySorted (fun a b => signed a <= signed b) (JS.sort byDifference values).
Proof.
  intros Hfin.
  assert (Hkey : forall a b, isFinite a = true -> isFinite b = true ->
                             byDifference a b = (signed b <? signed a)).
  { intros [| |s1 m1] [| |s2 m2]; simpl; try discriminate. intros _ _.
    apply byDifference_fin. }
  apply Sorted_StronglySorted.
  - intros a b c Hab Hbc. lia.
  - exact (sort_sorted byDifference signed _ Hkey values Hfin).
Qed.

Lemma filter_none {A} (f : A -> bool) (l : list A) :
  (forall y, In y l -> f y = false) -> List.filter f l = [].
Proof.
  induction l as [|x l IH]; intros H; [reflexivity|]. cbn [List.filter].
  rewrite (H x (or_introl eq_refl)). apply IH. intros y Hy. apply H. right. exact Hy.
Qed.

Lemma ascending_nth (l : list number) :
  StronglySorted (fun a b => signed a <= signed b) l ->
  forall i j a b, (i <= j)%nat ->
    nth_error l i = Some a -> nth_error l j = Some b -> signed a <= signed b.
Proof.
  induction 1 as [|x xs Hs IH Hall]; intros i j a b Hij Ha Hb.
  - destruct i; discriminate.
  - destruct i as [|i]; destruct j as [|j]; simpl in Ha, Hb.
    + apply (inj Some) in Ha, Hb. subst. lia.
    + apply (inj Some) in Ha. subst a.
      apply nth_error_In in Hb. rewrite List.Forall_forall in Hall. apply Hall, Hb.
    + lia.
    + apply (IH i j); [lia | assumption | assumption].
Qed.

Lemma ascending_below (l : list number) :
  StronglySorted (fun a b => signed a <= signed b) l ->
  forall i a, nth_error l i = Some a ->
    (length (List.filter (fun x => (signed x <? signed a)%Z) l) <= i)%nat.
Proof.
  induction 1 as [|x xs Hs IH Hall]; intros i a Ha.
  - destruct i; discriminate.
  - destruct i as [|i]; simpl in Ha.
    + apply (inj Some) in Ha. subst a. cbn [List.filter].
      rewrite Z.ltb_irrefl.
      rewrite filter_none; [simpl; lia|].
      intros y Hy. rewrite List.Forall_forall in Hall.
      specialize (Hall y Hy). apply Z.ltb_ge. exact Hall.
    + cbn [List.filter]. specialize (IH i a Ha).
      destruct (signed x <? signed a); simpl; lia.
Qed.

Lemma ascending_above (l : list number) :
  StronglySorted (fun a b => signed a <= signed b) l ->
  forall i a, nth_error l i = Some a ->
    (length (List.filter (fun x => (signed a <? signed x)%Z) l) <= length l - 1 - i)%nat.
Proof.
  induction 1 as [|x xs Hs IH Hall]; intros i a Ha.
  - destruct i; discriminate.
  - destruct i as [|i]; simpl in Ha.
    + apply (inj Some) in Ha. subst a. cbn [List.filter length].
      rewrite Z.ltb_irrefl.
      pose proof (List.filter_length_le (fun y => (signed x <? signed y)%Z) xs).
      lia.
    + cbn [List.filter length]. specialize (IH i a Ha).
      assert (Hxa : signed x <= signed a).
      { apply nth_error_In in Ha. rewrite List.Forall_forall in Hall. apply Hall, Ha. }
      destruct (Z.ltb_spec (signed a) (signed x)); [lia|].
      assert (i < length xs)%nat by (apply nth_error_Some; congruence).
      lia.
Qed.

Lemma filter_length_perm {A} (f : A -> bool) (l l' : list A) :
  Permutation l l' -> length (List.filter f l) = length (List.filter f l').
Proof.
  induction 1 as [|x l l' _ IH|x y l|l l' l'' _ IH1 _ IH2]; cbn [List.filter].
  - reflexivity.
  - destruct (f x); simpl; congruence.
  - destruct (f x), (f y); reflexivity.
  - congruence.
Qed.

Lemma filter_ltb_signed (P : number -> bool) (Q : number -> bool) (l : list number) :
  (forall x, In x l -> P x = Q x) -> List.filter P l = List.filter Q l.
Proof.
  intros H. induction l as [|x l IH]; [reflexivity|]. cbn [List.filter].
  rewrite (H x (or_introl eq_refl)), IH; [reflexivity|].
  intros y Hy. apply H. right. exact Hy.
Qed.

(** The range of a list of points whose display prices are moderate. *)
Lemma priceRange_endpoints rows :
  let values := displayValues rows in
  let n := length values in
  Forall (fun x => moderate x = true) values ->
  Z.of_nat n < 2 ^ 32 -> values <> [] ->
  exists lo hi,
    priceRange rows
    = Some {| PriceRange.min := Some lo; PriceRange.max := Some hi |}
    /\ In lo values /\ In hi values
    /\ moderate lo = true /\ moderate hi = true
    /\ signed lo <= signed hi
    /\ (length (List.filter (fun x => (signed x <? signed lo)%Z) values) <= (n - 1) / 10)%nat
    /\ (length (List.filter (fun x => (signed hi <? signed x)%Z) values)
        <= n - 1 - 9 * (n - 1) / 10)%nat.
Proof.
  intros values n Hmod Hn Hne.
  assert (Hfin : Forall (fun x => isFinite x = true) values).
  { eapply Forall_impl; [exact Hmod|]. intros x. apply moderate_finite. }
  pose proof (sort_byDifference_ascending values Hfin) as Hasc.
  pose proof (sort_perm byDifference values) as Hperm.
  pose proof (sort_length byDifference values) as Hlen. fold n in Hlen.
  assert (Hpos : (0 < n)%nat).
  { subst n. destruct values; [congruence | simpl; lia]. }
  assert (Hrange : priceRange rows
    = Some {| PriceRange.min := nth_error (JS.sort byDifference values) ((n - 1) / 10)%nat;
              PriceRange.max := nth_error (JS.sort byDifference values) (9 * (n - 1) / 10)%nat |}).
  { unfold priceRange. fold (displayValues rows). fold values.
    destruct values as [|v vs] eqn:Hv; [congruence|].
    rewrite pick_tenth, pick_nine_tenths by (rewrite Hlen; simpl in *; lia).
    rewrite Hlen. reflexivity. }
  revert Hasc Hperm Hlen Hrange. generalize (JS.sort byDifference values).
  intros sorted Hasc Hperm Hlen Hrange.
  assert (Hi : ((n - 1) / 10 <= 9 * (n - 1) / 10)%nat).
  { apply Nat.Div0.div_le_mono. lia. }
  assert (Hj : (9 * (n - 1) / 10 < n)%nat).
  { pose proof (Nat.Div0.div_le_upper_bound (9 * (n - 1)) 10 (n - 1)%nat ltac:(lia)). lia. }
  destruct (nth_error sorted ((n - 1) / 10)%nat) as [lo|] eqn:Hlo.
  2:{ apply nth_error_None in Hlo. lia. }
  destruct (nth_error sorted (9 * (n - 1) / 10)%nat) as [hi|] eqn:Hhi.
  2:{ apply nth_error_None in Hhi. lia. }
  assert (Inlo : In lo values).
  { eapply Permutation_in; [exact Hperm|]. eapply nth_error_In. exact Hlo. }
  assert (Inhi : In hi values).
  { eapply Permutation_in; [exact Hperm|]. eapply nth_error_In. exact Hhi. }
  rewrite List.Forall_forall in Hmod.
  exists lo, hi. split; [exact Hrange|].
  split; [exact Inlo|]. split; [exact Inhi|].
  split; [apply Hmod, Inlo|]. split; [apply Hmod, Inhi|].
  split; [exact (ascending_nth sorted Hasc _ _ lo hi Hi Hlo Hhi)|].
  split.
  - rewrite <- (filter_length_perm _ _ _ Hperm).
    exact (ascending_below sorted Hasc _ lo Hlo).
  - rewrite <- (filter_length_perm _ _ _ Hperm).
    pose proof (ascending_above sorted Hasc _ hi Hhi) as H.
    rewrite Hlen in H. exact H.
Qed.

(** X7.  The two ends of the range of the parsed points are display prices of
    two of the points, the lower end first.  At most a tenth of the [n - 1]
    other prices are strictly below the lower end, and at most a tenth of
    them, rounded up, strictly above the upper end; so with up to ten
    prices none is below the lower end. *)
Theorem priceRange_bounds (data : list FuelRow) :
  let points := toPoints data in
  let values := displayValues points in
  let n := length values in
  Z.of_nat n < 2 ^ 32 -> values <> [] ->
  exists lo hi,
    priceRange points
    = Some {| PriceRange.min := Some lo; PriceRange.max := Some hi |}
    /\ (exists p, In p points /\ FuelPoint.displayPriceValue p = Some lo)
    /\ (exists p, In p points /\ FuelPoint.displayPriceValue p = Some hi)
    /\ leb lo hi = true
    /\ (length (List.filter (fun x => ltb x lo) values) <= (n - 1) / 10)%nat
    /\ (length (List.filter (fun x => ltb hi x) values) <= n - 1 - 9 * (n - 1) / 10)%nat
    /\ ((n <= 10)%nat -> Forall (fun x => leb lo x = true) values).
Proof.
  intros points values n Hn Hne.
  pose proof (toPoints_values_moderate data) as Hmod. fold points values in Hmod.
  destruct (priceRange_endpoints points Hmod Hn Hne)
    as (lo & hi & Hrange & Inlo & Inhi & Mlo & Mhi & Hle & Hbelow & Habove).
  fold values n in Hbelow, Habove.
  assert (Hfin : forall x, In x values -> isFinite x = true).
  { intros x Hx. rewrite List.Forall_forall in Hmod. apply moderate_finite, Hmod, Hx. }
  assert (Hpoint : forall x, In x values ->
             exists p, In p points /\ FuelPoint.displayPriceValue p = Some x).
  { intros x Hx. apply list_elem_of_In, list_elem_of_omap in Hx as (p & Hp & Hv).
    exists p. split; [apply list_elem_of_In; exact Hp | exact Hv]. }
  assert (Eb : List.filter (fun x => ltb x lo) values
               = List.filter (fun x => (signed x <? signed lo)%Z) values).
  { apply filter_ltb_signed. intros x Hx. apply ltb_signed; auto. }
  assert (Ea : List.filter (fun x => ltb hi x) values
               = List.filter (fun x => (signed hi <? signed x)%Z) values).
  { apply filter_ltb_signed. intros x Hx. apply ltb_signed; auto. }
  exists lo, hi. split; [exact Hrange|].
  split; [apply Hpoint, Inlo|]. split; [apply Hpoint, Inhi|].
  split; [rewrite leb_signed by auto; apply Z.leb_le; exact Hle|].
  split; [rewrite Eb; exact Hbelow|]. split; [rewrite Ea; exact Habove|].
  intros Hten. apply List.Forall_forall. intros x Hx.
  rewrite leb_signed by auto. apply Z.leb_le.
  destruct (Z.le_gt_cases (signed lo) (signed x)) as [H | H]; [exact H | exfalso].
  assert (H0 : ((n - 1) / 10 = 0)%nat) by (apply Nat.div_small; lia).
  rewrite H0 in Hbelow.
  assert (Hin : In x (List.filter (fun x => (signed x <? signed lo)%Z) values)).
  { apply filter_In. split; [exact Hx | apply Z.ltb_lt; lia]. }
  destruct (List.filter (fun x => (signed x <? signed lo)%Z) values); [destruct Hin|].
  simpl in Hbelow. lia.
Qed.

Lemma sampleRows_values : length (displayValues (toPoints sampleRows)) = 2%nat.
Proof. vm_compute. reflexivity. Qed.

Lemma priceRange_bounds_witness :
  exists lo hi,
    priceRange (toPoints sampleRows)
    = Some {| PriceRange.min := Some lo; PriceRange.max := Some hi |}
    /\ leb lo hi = true
    /\ Forall (fun x => leb lo x = true) (displayValues (toPoints sampleRows)).
Proof.
  assert (Hn : Z.of_nat (length (displayValues (toPoints sampleRows))) < 2 ^ 32)
    by (rewrite sampleRows_values; reflexivity).
  assert (Hne : displayValues (toPoints sampleRows) <> []).
  { intros E. pose proof sampleRows_values as H. rewrite E in H. discriminate H. }
  destruct (priceRange_bounds sampleRows Hn Hne)
    as (lo & hi & Hrange & _ & _ & Hle & _ & _ & Hall).
  exists lo, hi. split; [exact Hrange|]. split; [exact Hle|].
  apply Hall. rewrite sampleRows_values. lia.
Defined.

(** ** The colour of a marker *)

(** The colour the marker of [row] is built with.  An end of the range is
    [undefined] when [pick] found no element at its index:
    [undefined === undefined] holds, and in arithmetic [undefined] is
    [NaN]. *)
Definition markerColor (row : FuelPoint.t) (priceRange : option PriceRange.t)
  : string :=
  match FuelPoint.displayPriceValue row, priceRange with
  | Some value, Some range =>
      match PriceRange.min range, PriceRange.max range with
      | None, None => "#16a34a"
      | min, max => priceToColor value (default NaN min) (default NaN max)
      end
  | _, _ => "#16a34a"
  end.

(** X8.  The markers of the parsed points never get a hue that is no number.  A
    point without a numeric display price is drawn in the default green.
    For a point with one the range exists and has both ends, the lower one
    first; when the two ends are equal the colour is the default green, and
    otherwise it is the [hsl] colour of a finite hue between 0 and 120,
    which is 120 up to the lower end and 0 from the upper end on. *)
Theorem marker_colours (data : list FuelRow) :
  let points := toPoints data in
  Z.of_nat (length (displayValues points)) < 2 ^ 32 ->
  Forall
    (fun p =>
       let color := markerColor p (priceRange points) in
       match FuelPoint.displayPriceValue p with
       | None => color = "#16a34a"%string
       | Some value =>
           exists lo hi,
             priceRange points
             = Some {| PriceRange.min := Some lo; PriceRange.max := Some hi |}
             /\ leb lo hi = true
             /\ (strict_eq lo hi = true -> color = "#16a34a"%string)
             /\ (strict_eq lo hi = false ->
                 let hue := priceHue value lo hi in
                 color = "hsl(" +:+ toString hue +:+ ", 70%, 45%)"
                 /\ isFinite hue = true
                 /\ leb (of_Z 0) hue = true /\ leb hue (of_Z 120) = true
                 /\ (leb value lo = true -> hue = of_Z 120)
                 /\ (leb hi value = true -> hue = of_Z 0))
       end)
    points.
Proof.
  intros points Hn. apply List.Forall_forall. intros p Hp.
  destruct (FuelPoint.displayPriceValue p) as [value|] eqn:Hv.
  2:{ unfold markerColor. rewrite Hv. reflexivity. }
  pose proof (toPoints_values_moderate data) as Hmod. fold points in Hmod.
  assert (Hin : In value (displayValues points)).
  { apply list_elem_of_In, list_elem_of_omap. exists p.
    split; [apply list_elem_of_In; exact Hp | exact Hv]. }
  assert (Hne : displayValues points <> []).
  { intros E. rewrite E in Hin. destruct Hin. }
  destruct (priceRange_endpoints points Hmod Hn Hne)
    as (lo & hi & Hrange & _ & _ & Mlo & Mhi & Hle & _).
  assert (Mv : moderate value = true).
  { rewrite List.Forall_forall in Hmod. apply Hmod, Hin. }
  pose proof (moderate_finite _ Mv) as Fv.
  pose proof (moderate_finite _ Mlo) as Flo.
  pose proof (moderate_finite _ Mhi) as Fhi.
  assert (Hcolor : markerColor p (priceRange points) = priceToColor value lo hi).
  { unfold markerColor. rewrite Hv, Hrange. reflexivity. }
  cbv zeta. rewrite Hcolor.
  exists lo, hi. split; [exact Hrange|].
  split; [rewrite leb_signed by assumption; apply Z.leb_le; exact Hle|].
  split.
  { intros Heq. unfold priceToColor. rewrite Heq, orb_true_r. reflexivity. }
  intros Hneq.
  assert (Hlt : signed lo < signed hi).
  { unfold strict_eq in Hneq.
    rewrite (leb_signed _ _ Flo Fhi), (leb_signed _ _ Fhi Flo) in Hneq.
    destruct (Z.leb_spec (signed lo) (signed hi)); [|lia].
    destruct (Z.leb_spec (signed hi) (signed lo)); [discriminate | lia]. }
  pose proof (priceHue_units _ _ _ Mv Mlo Mhi Hlt) as Eh.
  pose proof (hueUnits_range (signed value) _ _ Hlt) as Rh.
  split.
  { unfold priceToColor. rewrite Fv, Hneq. reflexivity. }
  rewrite Eh, of_Z_0, of_Z_120.
  split; [reflexivity|].
  split; [apply Z.leb_le; simpl; lia|]. split; [apply Z.leb_le; simpl; lia|].
  split.
  - intros H. rewrite (leb_signed _ _ Fv Flo) in H. apply Z.leb_le in H.
    rewrite hueUnits_low by assumption. reflexivity.
  - intros H. rewrite (leb_signed _ _ Fhi Fv) in H. apply Z.leb_le in H.
    rewrite hueUnits_high by assumption. reflexivity.
Qed.

Lemma marker_colours_witness :
  Forall
    (fun p =>
       match FuelPoint.displayPriceValue p with
       | None => markerColor p (priceRange (toPoints sampleRows)) = "#16a34a"%string
       | Some value =>
           exists lo hi,
             priceRange (toPoints sampleRows)
             = Some {| PriceRange.min := Some lo; PriceRange.max := Some hi |}
             /\ leb lo hi = true
       end)
    (toPoints sampleRows).
Proof.
  assert (Hn : Z.of_nat (length (displayValues (toPoints sampleRows))) < 2 ^ 32)
    by (rewrite sampleRows_values; reflexivity).
  eapply Forall_impl; [exact (marker_colours sampleRows Hn)|].
  intros p. cbv beta zeta. destruct (FuelPoint.displayPriceValue p); [|auto].
  intros (lo & hi & Hrange & Hle & _). exists lo, hi. auto.
Defined.

(** ** The icon of a marker *)

Module DivIcon.
Record options : Type := mk {
  className : string;
  html : string;
  iconSize : Z * Z;
  iconAnchor : Z * Z;
  popupAnchor : Z * Z
}.
End DivIcon.

(** The double quote of the attribute values. *)
Definition quote : string := String (ascii_of_nat 34) "".

(** The template of a labelled marker, up to the label and from it on. *)
Definition markerOpen (color : string) : string :=
  "<div class=" +:+ quote +:+ "marker-stack" +:+ quote
  +:+ "><div class=" +:+ quote +:+ "marker-label" +:+ quote
  +:+ " style=" +:+ quote +:+ "background:" +:+ color +:+ quote +:+ ">".

Definition markerClose (color : string) : string :=
  "</div><div class=" +:+ quote +:+ "marker-dot" +:+ quote
  +:+ " style=" +:+ quote +:+ "background:" +:+ color +:+ quote
  +:+ "></div></div>".

Definition greyDot : string :=
  "<div class=" +:+ quote +:+ "marker-dot marker-dot--grey" +:+ quote +:+ "></div>".

Definition buildPriceIcon (priceLabel : option string) (hasPrices : bool)
    (color : string) : DivIcon.options :=
  {| DivIcon.className := "price-marker";
     DivIcon.html :=
       if hasPrices
       then markerOpen color +:+ default "" priceLabel +:+ markerClose color
       else greyDot;
     DivIcon.iconSize := if hasPrices then (48, 40) else (16, 16);
     DivIcon.iconAnchor := if hasPrices then (24, 24) else (8, 8);
     DivIcon.popupAnchor := (0, -18) |}.

(** The [icon] of the marker of [row]. *)
Definition markerIcon (row : FuelPoint.t) (priceRange : option PriceRange.t)
  : DivIcon.options :=
  buildPriceIcon (FuelPoint.displayPrice row) (FuelPoint.hasPrices row)
    (markerColor row priceRange).

(** X9.  The marker of a point without prices is the grey dot, whatever the
    range.  The marker of a point with prices and no numeric display price
    is drawn in the default green, whatever the range, and its label, when
    there is one, is the text of a price cell of the row without the
    apostrophes it starts with: the text goes into the html of the icon as
    it is. *)
Theorem marker_icon
    (row : FuelRow) (p : FuelPoint.t) (range : option PriceRange.t) :
  rowToPoint row = Some p ->
  (FuelPoint.hasPrices p = false ->
   markerIcon p range
   = {| DivIcon.className := "price-marker"; DivIcon.html := greyDot;
        DivIcon.iconSize := (16, 16); DivIcon.iconAnchor := (8, 8);
        DivIcon.popupAnchor := (0, -18) |})
  /\ (FuelPoint.hasPrices p = true -> FuelPoint.displayPriceValue p = None ->
      (FuelPoint.displayPrice p = None ->
       DivIcon.html (markerIcon p range)
       = markerOpen "#16a34a" +:+ markerClose "#16a34a")
      /\ (forall label, FuelPoint.displayPrice p = Some label ->
          DivIcon.html (markerIcon p range)
          = markerOpen "#16a34a" +:+ label +:+ markerClose "#16a34a"
          /\ exists key value,
               In key priceKeys /\ row !! key = Some value
               /\ label = normalizePrice value)).
Proof.
  intros Hp. unfold markerIcon, buildPriceIcon. split.
  - intros Hhas. rewrite Hhas. reflexivity.
  - intros Hhas Hv.
    assert (Hcolor : markerColor p range = "#16a34a"%string).
    { unfold markerColor. rewrite Hv. reflexivity. }
    rewrite Hhas, Hcolor. cbn [DivIcon.html]. split.
    + intros ->. reflexivity.
    + intros label Hl. split; [rewrite Hl; reflexivity|].
      pose proof (rowToPoint_fields _ _ Hp) as (Hprices & _ & Hdp & Hdv & _).
      rewrite Hhas in Hdp, Hdv. rewrite Hdp in Hl. rewrite Hdv in Hv.
      unfold getDisplayPrice in Hl. unfold getDisplayPriceValue in Hv.
      destruct (display_pair preferred (FuelPoint.prices p))
        as [(H1 & _) | (k & v & _ & Ht & H1 & H2)]; [congruence|].
      rewrite H2 in Hv. rewrite H1 in Hl.
      rewrite (proj1 (proj2 (label_of_value v) Hv)) in Hl.
      apply (inj Some) in Hl. subst v.
      apply truthy_at_Some in Ht as [Hk _]. rewrite Hprices in Hk.
      apply collectPrices_lookup in Hk as [Hk | (key & value & Hin & _ & Hrow & Hn)].
      * rewrite lookup_empty in Hk. discriminate.
      * apply truthy_at_Some in Hrow as [Hrow _]. exists key, value. auto.
Qed.

(** A station whose E10 cell holds markup. *)
Definition markupRow : FuelRow :=
  {[ "forecourts.location.latitude" := "51.5";
     "forecourts.location.longitude" := "-0.12";
     "forecourts.fuel_price.E10" := "<b>n/a</b>" ]}%string.

Lemma markupRow_point : is_Some (rowToPoint markupRow).
Proof. apply rowToPoint_is_Some. split; vm_compute; reflexivity. Qed.

Lemma marker_icon_witness :
  exists p,
    rowToPoint markupRow = Some p
    /\ DivIcon.html (markerIcon p None)
       = markerOpen "#16a34a" +:+ "<b>n/a</b>" +:+ markerClose "#16a34a".
Proof.
  destruct markupRow_point as [p Hp]. exists p. split; [exact Hp|].
  pose proof (rowToPoint_fields _ _ Hp) as (Hprices & Hhas & Hdp & Hdv & _).
  rewrite Hprices in Hhas.
  assert (Hhas' : FuelPoint.hasPrices p = true)
    by (rewrite Hhas; vm_compute; reflexivity).
  rewrite Hhas', Hprices in Hdp, Hdv.
  assert (Hv : FuelPoint.displayPriceValue p = None)
    by (rewrite Hdv; vm_compute; reflexivity).
  assert (Hl : FuelPoint.displayPrice p = Some "<b>n/a</b>"%string)
    by (rewrite Hdp; vm_compute; reflexivity).
  destruct (marker_icon markupRow p None Hp) as [_ H].
  destruct (H Hhas' Hv) as [_ Hlabel].
  exact (proj1 (Hlabel _ Hl)).
Defined.

(** ** White space before the text *)

Fixpoint all_space (s : string) : bool :=
  match s with
  | EmptyString => true
  | String a s' => is_space a && all_space s'
  end.

(** The byte order mark U+FEFF. *)
Definition byteOrderMark : string :=
  String (ascii_of_nat 239) (String (ascii_of_nat 187) (String (ascii_of_nat 191) "")).

Lemma trimStart_all_space ws text :
  all_space ws = true -> trimStart (ws +:+ text) = trimStart text.
Proof.
  induction ws as [|a ws IH]; [reflexivity|].
  cbn [all_space]. intros H. apply andb_true_iff in H as [Ha Hws].
  change (String a ws +:+ text) with (String a (ws +:+ text)).
  cbn [trimStart]. rewrite Ha. apply IH, Hws.
Qed.

Lemma trimStart_byteOrderMark text :
  trimStart (byteOrderMark +:+ text) = trimStart text.
Proof. reflexivity. Qed.

(** X10.  White space and a byte order mark before the text change nothing in
    what [reader.onload] makes of it: the text is rejected with them exactly
    when it is rejected without them, and a text that is accepted goes to
    the parser with them. *)
Theorem leading_space_is_ignored
    (parse : string -> ParseOutcome) (ws text : string) :
  all_space ws = true ->
  looksWrong (ws +:+ text) = looksWrong text
  /\ looksWrong (byteOrderMark +:+ ws +:+ text) = looksWrong text
  /\ (looksWrong text = true ->
      onload parse (byteOrderMark +:+ ws +:+ text)
      = [SetParseError notCsvMessage; SetRows []])
  /\ (looksWrong text = false ->
      exists rest,
        onload parse (byteOrderMark +:+ ws +:+ text)
        = PapaParse (byteOrderMark +:+ ws +:+ text) :: rest).
Proof.
  intros Hws.
  assert (H1 : looksWrong (ws +:+ text) = looksWrong text).
  { unfold looksWrong. rewrite (trimStart_all_space ws text Hws). reflexivity. }
  assert (H2 : looksWrong (byteOrderMark +:+ ws +:+ text) = looksWrong text).
  { rewrite <- H1. unfold looksWrong. rewrite trimStart_byteOrderMark. reflexivity. }
  split; [exact H1|]. split; [exact H2|].
  unfold onload. rewrite H2. split; intros ->; [reflexivity|].
  eexists. reflexivity.
Qed.

Lemma leading_space_is_ignored_witness :
  looksWrong (String (ascii_of_nat 10) "  <html>a,b</html>") = true
  /\ looksWrong (byteOrderMark +:+ String (ascii_of_nat 10) "  <html>a,b</html>") = true.
Proof.
  destruct (leading_space_is_ignored (fun _ => Failed {| message := "" |})
              (String (ascii_of_nat 10) "  ") "<html>a,b</html>" eq_refl)
    as (H1 & H2 & _).
  split; [exact (eq_trans H1 eq_refl) | exact (eq_trans H2 eq_refl)].
Defined.

(** ** Colours across the markers *)


